(** * gambleboy: the slot-machine controller, embedded and verified

    The controller ([main.py], [serial_communication.py],
    [slot_machine_video.py]) is sequential Python code that talks to four
    outside collaborators: a GPIO input line, a serial port, a display and the
    process-wide random source.  The embedding keeps that shape:

    - the collaborators live in one record, [Env], together with the
      chronological [trace] of every call made to them;
    - Python code is written in the monad [M], a state monad over [Env] with
      exceptions ([Raise]) and [try_except];
    - the three objects of the program ([Button], [SerialCommunication],
      [SlotMachineVideo]) are records; a method that assigns to [self] returns
      the updated record;
    - Python floats are binary64 primitive floats, Python ints are [Z], [str]
      is [string] (the UTF-8 text of the string; a lone surrogate, which has
      no UTF-8 form, is held as the three bytes of its generalised form, so
      that such a text is not well-formed UTF-8) and [bytes] is [list byte];
    - [await] of a coroutine is sequencing: the program runs a single task, so
      every awaited call completes before the next statement starts.

    The libraries the code calls (pyserial's port object, [random.choices]
    and its bisection, the UTF-8 codec, [str.strip]) are modelled by what
    they do; [json.loads] is a parameter.  Reading the input line and
    drawing a frame are taken not to fail, and an interrupt from the keyboard
    is outside the model. *)

From Stdlib Require Import ZArith List Bool Lia.
From Stdlib Require Import Sorting.Permutation Sorting.Sorted.
From Stdlib Require Import Strings.String Strings.Ascii Strings.Byte.
From Stdlib Require Import Numbers.DecimalString.
From Stdlib Require Import Floats.PrimFloat Floats.SpecFloat Floats.FloatOps.
Import ListNotations.

#[local] Set Warnings "-inexact-float".

(** ** Exceptions *)

(** The exception classes the modelled code can meet.  All of them derive from
    [Exception]; the three serial ones are [serial.SerialException] or a
    subclass of it. *)
Inductive exn : Type :=
| SerialException
| PortNotOpenError
| SerialTimeoutException
| OSError
| AttributeError
| ValueError
| IndexError
| ZeroDivisionError
| OverflowError
| UnicodeDecodeError
| UnicodeEncodeError
| JSONDecodeError.

(** [isinstance(e, serial.SerialException)] *)
Definition is_SerialException (e : exn) : bool :=
  match e with
  | SerialException | PortNotOpenError | SerialTimeoutException => true
  | _ => false
  end.

(** ** The outside world *)

(** A decoded frame, named by the file it was loaded from. *)
Inductive Image : Type := Frame (file : string).

(** One call to a collaborator. *)
Inductive event : Type :=
| EvPrint (text : string)
    (** [print(text)] *)
| EvPrintExn (text : string) (e : exn)
    (** [print(f"{text}{e}")], the exception rendered by the library *)
| EvGpioInput (pin : Z)
    (** [GPIO.input(pin)] *)
| EvSerialOpen (port : string) (baud : Z) (timeout : float)
    (** [serial.Serial(port, baud, timeout=timeout)] *)
| EvSerialWrite (data : list byte)
    (** [connection.write(data)] *)
| EvSerialFlush
    (** [connection.flush()] *)
| EvSerialInWaiting
    (** [connection.in_waiting] *)
| EvSerialReadline
    (** [connection.readline()] *)
| EvSerialClose
    (** [connection.close()] *)
| EvDisplay (frame : Image)
    (** [disp.display(frame)] *)
| EvSleep (delay : float)
    (** [await asyncio.sleep(delay)] *)
| EvRandom.
    (** [random.random()] *)

(** The environment.  The first three pairs are scripts: what the k-th read of
    the input line returns, what the k-th [random.random()] returns, and
    whether the k-th operation on the serial port raises.  The serial line
    itself is three byte queues. *)
Record Env : Type := mkEnv {
  gpio_level : nat -> Z;
  gpio_reads : nat;
  random_value : nat -> float;
  random_calls : nat;
  io_error : nat -> option exn;
  io_calls : nat;
  tx_pending : list byte;   (** written, not yet flushed *)
  wire : list byte;         (** what the peripheral has received *)
  rx_buffer : list byte;    (** received from the peripheral, not yet read *)
  trace : list event
}.

Definition set_trace (tr : list event) (env : Env) : Env :=
mkEnv (gpio_level env) (gpio_reads env) (random_value env) (random_calls env)
      (io_error env) (io_calls env) (tx_pending env) (wire env)
      (rx_buffer env) tr.

Definition set_gpio_reads (n : nat) (env : Env) : Env :=
mkEnv (gpio_level env) n (random_value env) (random_calls env)
      (io_error env) (io_calls env) (tx_pending env) (wire env)
      (rx_buffer env) (trace env).

Definition set_random_calls (n : nat) (env : Env) : Env :=
mkEnv (gpio_level env) (gpio_reads env) (random_value env) n
      (io_error env) (io_calls env) (tx_pending env) (wire env)
      (rx_buffer env) (trace env).

Definition set_io_calls (n : nat) (env : Env) : Env :=
mkEnv (gpio_level env) (gpio_reads env) (random_value env) (random_calls env)
      (io_error env) n (tx_pending env) (wire env)
      (rx_buffer env) (trace env).

Definition set_line (pending sent received : list byte) (env : Env) : Env :=
mkEnv (gpio_level env) (gpio_reads env) (random_value env) (random_calls env)
      (io_error env) (io_calls env) pending sent received (trace env).

(** ** The monad of Python code *)

Inductive result (A : Type) : Type :=
| Ok (a : A)
| Raise (e : exn).
Arguments Ok {A} a.
Arguments Raise {A} e.

Definition M (A : Type) : Type := Env -> result A * Env.

Definition ret {A} (a : A) : M A := fun env => (Ok a, env).

Definition bind {A B} (m : M A) (k : A -> M B) : M B :=
  fun env =>
    match m env with
    | (Ok a, env') => k a env'
    | (Raise e, env') => (Raise e, env')
    end.

Definition raise {A} (e : exn) : M A := fun env => (Raise e, env).

(** [try: body  except Exception as e: handler e].  What [body] did to the
    environment before it raised stays done. *)
Definition try_except {A} (body : M A) (handler : exn -> M A) : M A :=
  fun env =>
    match body env with
    | (Ok a, env') => (Ok a, env')
    | (Raise e, env') => handler e env'
    end.

(** A pure computation that may raise, run inside [M]. *)
Definition lift {A} (r : result A) : M A := fun env => (r, env).

Declare Scope py_scope.
Delimit Scope py_scope with py.
Notation "x <- m ;; k" := (bind m (fun x => k))
  (at level 61, m at next level, right associativity) : py_scope.
Notation "' pat <- m ;; k" := (bind m (fun x => match x with pat => k end))
  (at level 61, pat pattern, m at next level, right associativity) : py_scope.
Notation "m ;; k" := (bind m (fun _ => k))
  (at level 61, right associativity) : py_scope.
Open Scope py_scope.

(** *** Primitive effects *)

Definition emit (ev : event) : M unit :=
fun env => (Ok tt, set_trace (trace env ++ [ev]) env).

Definition print (text : string) : M unit := emit (EvPrint text).

Definition print_exn (text : string) (e : exn) : M unit :=
emit (EvPrintExn text e).

(** [GPIO.LOW] and [GPIO.HIGH] *)
Definition GPIO_LOW : Z := 0.
Definition GPIO_HIGH : Z := 1.

(** [GPIO.input(pin)]: the next level of the script. *)
Definition GPIO_input (pin : Z) : M Z :=
emit (EvGpioInput pin) ;;
fun env =>
  (Ok (gpio_level env (gpio_reads env)), set_gpio_reads (S (gpio_reads env)) env).

(** [random.random()]: the next value of the script. *)
Definition random_random : M float :=
emit EvRandom ;;
fun env =>
  (Ok (random_value env (random_calls env)),
   set_random_calls (S (random_calls env)) env).

(** [await asyncio.sleep(delay)] *)
Definition asyncio_sleep (delay : float) : M unit := emit (EvSleep delay).

(** An operation on the serial port: it is recorded, it advances the fault
    script and it raises when the script says so. *)
Definition io_attempt (ev : event) : M unit :=
emit ev ;;
fun env =>
  (match io_error env (io_calls env) with
   | Some e => Raise e
   | None => Ok tt
   end,
   set_io_calls (S (io_calls env)) env).

(** ** [main.py]: the button *)

Module Button.

Record t : Type := mk { pin : Z; last_state : bool }.

Definition __init__ (pin : Z) : t := mk pin false.

Definition is_pressed (self : t) : M bool :=
level <- GPIO_input (pin self) ;;
ret (Z.eqb level GPIO_LOW).

(** Returns True only on the moment the button is pressed (not held). *)
Definition was_just_pressed (self : t) : M (bool * t) :=
current_state <- is_pressed self ;;
if current_state && negb (last_state self) then
  ret (true, mk (pin self) current_state)
else
  ret (false, mk (pin self) current_state).

End Button.

(** Polling [n] times in a row, as the orchestrator's loop does between two
    turns: the answers in order and the button afterwards. *)
Fixpoint poll_sequence (n : nat) (b : Button.t) : M (list bool * Button.t) :=
  match n with
  | O => ret ([], b)
  | S n' =>
      '(r, b1) <- Button.was_just_pressed b ;;
      '(rs, b2) <- poll_sequence n' b1 ;;
      ret (r :: rs, b2)
  end.

(** The k-th upcoming raw sample of the line, read as pressed (active low). *)
Definition sample (env : Env) (k : nat) : bool :=
  Z.eqb (gpio_level env (gpio_reads env + k)) GPIO_LOW.

(** The sample the k-th upcoming poll is compared with: the stored
    [last_state] for the first one, the previous poll's sample afterwards. *)
Definition preceding (env : Env) (b : Button.t) (k : nat) : bool :=
  match k with
  | O => Button.last_state b
  | S j => sample env j
  end.

(** ** Text and bytes *)

(** The one-character string a newline escape denotes. *)
Definition newline : string := String (ascii_of_nat 10) EmptyString.

(** [str(n)] and the [{n}] of an f-string, for an int. *)
Definition str_of_int (n : Z) : string := NilZero.string_of_int (Z.to_int n).

(** The bytes a [str] is held as: its UTF-8 text. *)
Definition utf8_bytes (s : string) : list byte := list_byte_of_string s.

Definition byte_between (lo hi : N) (b : byte) : bool :=
(lo <=? Byte.to_N b)%N && (Byte.to_N b <=? hi)%N.

Definition continuation_byte (b : byte) : bool := byte_between 128 191 b.

(** The second byte a three-byte sequence admits after lead byte [b0]
    (no overlong form, no surrogate). *)
Definition second_of_three (b0 b1 : byte) : bool :=
if byte_between 224 224 b0 then byte_between 160 191 b1
else if byte_between 237 237 b0 then byte_between 128 159 b1
else continuation_byte b1.

(** The second byte a four-byte sequence admits after lead byte [b0]
    (no overlong form, nothing above U+10FFFF). *)
Definition second_of_four (b0 b1 : byte) : bool :=
if byte_between 240 240 b0 then byte_between 144 191 b1
else if byte_between 244 244 b0 then byte_between 128 143 b1
else continuation_byte b1.

(** Well-formed UTF-8, as the strict decoder accepts it. *)
Fixpoint utf8_wellformed (bs : list byte) : bool :=
match bs with
| [] => true
| b0 :: t0 =>
    if byte_between 0 127 b0 then utf8_wellformed t0
    else
      match t0 with
      | [] => false
      | b1 :: t1 =>
          if byte_between 194 223 b0 then
            continuation_byte b1 && utf8_wellformed t1
          else
            match t1 with
            | [] => false
            | b2 :: t2 =>
                if byte_between 224 239 b0 then
                  second_of_three b0 b1 && continuation_byte b2
                  && utf8_wellformed t2
                else
                  match t2 with
                  | [] => false
                  | b3 :: t3 =>
                      byte_between 240 244 b0 && second_of_four b0 b1
                      && continuation_byte b2 && continuation_byte b3
                      && utf8_wellformed t3
                  end
            end
      end
end.

(** [s.encode('utf-8')]: the bytes of the text, or [UnicodeEncodeError] when
    the text holds a lone surrogate, that is when its bytes are not
    well-formed UTF-8. *)
Definition encode_utf8 (s : string) : result (list byte) :=
if utf8_wellformed (utf8_bytes s) then Ok (utf8_bytes s)
else Raise UnicodeEncodeError.

(** [data.decode('utf-8')] *)
Definition decode_utf8 (data : list byte) : result string :=
if utf8_wellformed data then Ok (string_of_list_byte data)
else Raise UnicodeDecodeError.

(** Whitespace in the sense of [str.isspace], by UTF-8 length: the ASCII
    ones (tab to carriage return, the four separators 28..31 and space),
    U+0085 and U+00A0, and the three-byte ones (U+1680, U+2000..U+200A, U+2028,
    U+2029, U+202F, U+205F, U+3000). *)
Definition space1 (a : byte) : bool :=
byte_between 9 13 a || byte_between 28 32 a.

Definition space2 (a b : byte) : bool :=
byte_between 194 194 a && (byte_between 133 133 b || byte_between 160 160 b).

Definition space3 (a b c : byte) : bool :=
(byte_between 225 225 a && byte_between 154 154 b && byte_between 128 128 c)
|| (byte_between 226 226 a && byte_between 128 128 b
    && (byte_between 128 138 c || byte_between 168 169 c
        || byte_between 175 175 c))
|| (byte_between 226 226 a && byte_between 129 129 b && byte_between 159 159 c)
|| (byte_between 227 227 a && byte_between 128 128 b && byte_between 128 128 c).

(** Dropping the whitespace characters at the front of a byte sequence;
    [fwd] tells whether the bytes of a character come first to last (the text
    itself) or last to first (the text reversed). *)
Fixpoint drop_spaces (fwd : bool) (bs : list byte) : list byte :=
match bs with
| [] => bs
| a :: t1 =>
    if space1 a then drop_spaces fwd t1
    else
      match t1 with
      | [] => bs
      | b :: t2 =>
          if (if fwd then space2 a b else space2 b a) then drop_spaces fwd t2
          else
            match t2 with
            | [] => bs
            | c :: t3 =>
                if (if fwd then space3 a b c else space3 c b a)
                then drop_spaces fwd t3
                else bs
            end
      end
end.

(** [s.strip()] *)
Definition str_strip (s : string) : string :=
string_of_list_byte
  (rev (drop_spaces false (rev (drop_spaces true (list_byte_of_string s))))).

(** Truth value of a [str]: non-empty. *)
Definition str_truthy (s : string) : bool :=
match s with
| EmptyString => false
| String _ _ => true
end.

(** ** The serial port library *)

(** A line as [readline] cuts it: up to and including the first newline, or
    everything there is when no newline has arrived before the timeout. *)
Fixpoint split_line (bs : list byte) : list byte * list byte :=
match bs with
| [] => ([], [])
| b :: rest =>
    if Byte.eqb b x0a then ([b], rest)
    else let (line, rest') := split_line rest in (b :: line, rest')
end.

(** pyserial's port object, as far as the code uses it.  Every operation on
    an open port goes through [io_attempt]; on a closed port the operations
    that move data raise [PortNotOpenError] and [close] does nothing.  A
    failed write or flush leaves the queues as they were. *)
Module Serial.

(** The port object; the line it drives is in [Env]. *)
Record t : Type := mk {
  port : string;
  baudrate : Z;
  timeout : float;
  is_open : bool
}.

(** [serial.Serial(port, baud, timeout=timeout)] opens the port. *)
Definition __init__ (port : string) (baud : Z) (timeout : float) : M t :=
io_attempt (EvSerialOpen port baud timeout) ;;
ret (mk port baud timeout true).

Definition write (self : t) (data : list byte) : M unit :=
if is_open self then
  io_attempt (EvSerialWrite data) ;;
  fun env =>
    (Ok tt, set_line (tx_pending env ++ data) (wire env) (rx_buffer env) env)
else raise PortNotOpenError.

Definition flush (self : t) : M unit :=
if is_open self then
  io_attempt EvSerialFlush ;;
  fun env =>
    (Ok tt, set_line [] (wire env ++ tx_pending env) (rx_buffer env) env)
else raise PortNotOpenError.

Definition in_waiting (self : t) : M Z :=
if is_open self then
  io_attempt EvSerialInWaiting ;;
  fun env => (Ok (Z.of_nat (List.length (rx_buffer env))), env)
else raise PortNotOpenError.

Definition readline (self : t) : M (list byte) :=
if is_open self then
  io_attempt EvSerialReadline ;;
  fun env =>
    let (line, rest) := split_line (rx_buffer env) in
    (Ok line, set_line (tx_pending env) (wire env) rest env)
else raise PortNotOpenError.

Definition close (self : t) : M t :=
if is_open self then
  io_attempt EvSerialClose ;;
  ret (mk (port self) (baudrate self) (timeout self) false)
else ret self.

End Serial.

(** ** [serial_communication.py] *)

Module SerialCommunication.

Record t : Type := mk {
  port : string;
  baud : Z;
  timeout : float;
  connection : option Serial.t;
  connected : bool
}.

Definition __init__ (port : string) (baud : Z) (timeout : float) : t :=
mk port baud timeout None false.

Definition set_connection (c : option Serial.t) (self : t) : t :=
mk (port self) (baud self) (timeout self) c (connected self).

Definition set_connected (b : bool) (self : t) : t :=
mk (port self) (baud self) (timeout self) (connection self) b.

(** Truth value of [self.connection]: a port object is always true, [None]
    is false. *)
Definition truthy (c : option Serial.t) : bool :=
match c with
| Some _ => true
| None => false
end.

(** Establish serial connection to RP2350.  Nothing is assigned to [self]
    before the call that can raise, so the handlers start from [self]. *)
Definition connect (self : t) : M (bool * t) :=
try_except
  (c <- Serial.__init__ (port self) (baud self) (timeout self) ;;
   let self1 := set_connection (Some c) self in
   let self2 := set_connected true self1 in
   print ("Serial connection established on " ++ port self ++ " at "
          ++ str_of_int (baud self) ++ " baud")%string ;;
   ret (true, self2))
  (fun e =>
     if is_SerialException e then
       print_exn ("Failed to connect to " ++ port self ++ ": ")%string e ;;
       ret (false, set_connected false self)
     else
       print_exn "Unexpected error connecting to serial: " e ;;
       ret (false, set_connected false self)).

(** Close serial connection. *)
Definition disconnect (self : t) : M t :=
match connection self with
| Some c =>
    if Serial.is_open c then
      c' <- Serial.close c ;;
      let self1 := set_connection (Some c') self in
      let self2 := set_connected false self1 in
      print "Serial connection closed" ;;
      ret self2
    else ret self
| None => ret self
end.

(** Send raw string data to RP2350 with newline. *)
Definition send_data (self : t) (data : string) : M bool :=
if negb (connected self) || negb (truthy (connection self)) then
  print "No serial connection available" ;;
  ret false
else
  try_except
    (let command_with_newline := (data ++ newline)%string in
     match connection self with
     | Some c =>
         payload <- lift (encode_utf8 command_with_newline) ;;
         Serial.write c payload ;;
         Serial.flush c ;;
         ret true
     | None => raise AttributeError
     end)
    (fun e =>
       print_exn "Error sending data: " e ;;
       ret false).

(** Send raw command to RP2350 (alias for send_data). *)
Definition send_raw_command (self : t) (command : string) : M bool :=
send_data self command.

Section ReadData.

(** The JSON library: the values it decodes to, and [json.loads], which
    returns a value or raises. *)
Variable json : Type.
Variable json_loads : string -> result json.

(** Read JSON data from RP2350.  The body of the [try] yields [Some v] where
    the code returns [v] and [None] where it falls through to the final
    [return None]. *)
Definition read_data (self : t) : M (option json) :=
if negb (connected self) || negb (truthy (connection self)) then
  ret None
else
  try_except
    (match connection self with
     | Some c =>
         waiting <- Serial.in_waiting c ;;
         if (0 <? waiting)%Z then
           raw <- Serial.readline c ;;
           text <- lift (decode_utf8 raw) ;;
           let line := str_strip text in
           if str_truthy line then
             v <- lift (json_loads line) ;;
             ret (Some v)
           else ret None
         else ret None
     | None => raise AttributeError
     end)
    (fun e =>
       print_exn "Error reading data: " e ;;
       ret None).

End ReadData.

Arguments read_data {json} json_loads self.

End SerialCommunication.

(** ** Numbers *)

(** [float(n)] for an int: correctly rounded, [OverflowError] past the
    largest finite value. *)
Definition float_of_int (n : Z) : result float :=
let f := SF2Prim (binary_normalize prec emax n 0 false) in
if is_infinity f then Raise OverflowError else Ok f.

(** [x / n] for a float [x] and an int [n]. *)
Definition float_truediv_int (x : float) (n : Z) : result float :=
match float_of_int n with
| Ok d => if Z.eqb n 0 then Raise ZeroDivisionError else Ok (x / d)%float
| Raise e => Raise e
end.

(** ** Paths and file names *)

(** [s.endswith("/")] *)
Fixpoint ends_with_slash (s : string) : bool :=
match s with
| EmptyString => false
| String c EmptyString => Ascii.eqb c "/"
| String _ rest => ends_with_slash rest
end.

(** [os.path.join(a, b)] for a [b] that does not start with a slash. *)
Definition os_path_join (a b : string) : string :=
if negb (str_truthy a) || ends_with_slash a then (a ++ b)%string
else (a ++ "/" ++ b)%string.

(** [sorted(names)] on file names: ascending, compared character by
    character (on UTF-8 text the byte order is the order of the code points).
    Names that compare equal are equal, so every sorting method gives this
    list. *)
Fixpoint insert_sorted (name : string) (names : list string) : list string :=
match names with
| [] => [name]
| other :: rest =>
    if String.leb name other then name :: names
    else other :: insert_sorted name rest
end.

Fixpoint sorted (names : list string) : list string :=
match names with
| [] => []
| name :: rest => insert_sorted name (sorted rest)
end.

(** The file a frame was loaded from. *)
Definition frame_file (frame : Image) : string :=
match frame with
| Frame file => file
end.

(** ** [slot_machine_video.py] *)

Module SlotMachineVideo.

(** The three frame sequences [__init__] loads; the display itself is in
    [Env]. *)
Record t : Type := mk {
  win_frames : list Image;
  lose_frames : list Image;
  spin_frames : list Image
}.

Section LoadFrames.

(** The file system, as far as [load_frames] looks at it: [os.path.exists],
    [glob.glob], and the error [Image.open(file).convert('RGB')] raises on a
    file, if any. *)
Variable os_path_exists : string -> bool.
Variable glob_glob : string -> list string.
Variable image_open_error : string -> option exn.

(** [Image.open(frame_file).convert('RGB')] *)
Definition Image_open_convert (frame_file : string) : M Image :=
match image_open_error frame_file with
| Some e => raise e
| None => ret (Frame frame_file)
end.

(** The [for frame_file in frame_files] loop of [load_frames]; [frames] is
    the list built so far. *)
Fixpoint load_each (frame_files : list string) (frames : list Image)
  : M (list Image) :=
match frame_files with
| [] => ret frames
| frame_file :: rest =>
    frames' <- try_except
                 (img <- Image_open_convert frame_file ;;
                  ret (frames ++ [img]))
                 (fun e =>
                    print_exn ("Error loading " ++ frame_file ++ ": ")%string e ;;
                    ret frames) ;;
    load_each rest frames'
end.

(** Load frames from directory. *)
Definition load_frames (self : t) (frames_dir : string) : M (list Image) :=
if negb (os_path_exists frames_dir) then ret []
else
  let frame_files := sorted (glob_glob (os_path_join frames_dir "*.png")) in
  load_each frame_files [].

End LoadFrames.

(** [for frame in frames: self.disp.display(frame); await asyncio.sleep(frame_delay)] *)
Fixpoint for_each_frame (frames : list Image) (frame_delay : float) : M unit :=
match frames with
| [] => ret tt
| frame :: rest =>
    emit (EvDisplay frame) ;;
    asyncio_sleep frame_delay ;;
    for_each_frame rest frame_delay
end.

(** Play animation frames. *)
Definition play_animation (self : t) (frames : list Image) (fps : Z) : M unit :=
match frames with
| [] => ret tt
| _ :: _ =>
    frame_delay <- lift (float_truediv_int 1 fps) ;;
    for_each_frame frames frame_delay
end.

(** The default of the [fps] argument. *)
Definition default_fps : Z := 10.

Definition show_win_animation (self : t) : M unit :=
play_animation self (win_frames self) default_fps.

Definition show_lose_animation (self : t) : M unit :=
play_animation self (lose_frames self) default_fps.

Definition show_spin_animation (self : t) : M unit :=
play_animation self (spin_frames self) default_fps.

End SlotMachineVideo.

(** ** The random library: [random.choices] with weights *)

(** [itertools.accumulate(weights)], the running sums after the first. *)
Fixpoint accumulate_from (acc : float) (ws : list float) : list float :=
match ws with
| [] => []
| w :: ws' => (acc + w)%float :: accumulate_from (acc + w)%float ws'
end.

Definition accumulate (ws : list float) : list float :=
match ws with
| [] => []
| w :: ws' => w :: accumulate_from w ws'
end.

(** The loop of [bisect.bisect_right(a, x, lo, hi)]; [hi - lo] rounds are
    enough, each one shrinks the interval. *)
Fixpoint bisect_loop (rounds : nat) (a : list float) (x : float)
  (lo hi : nat) : nat :=
match rounds with
| O => lo
| S rounds' =>
    if (lo <? hi)%nat then
      let mid := ((lo + hi) / 2)%nat in
      if (x <? nth mid a nan)%float then bisect_loop rounds' a x lo mid
      else bisect_loop rounds' a x (S mid) hi
    else lo
end.

Definition bisect (a : list float) (x : float) (lo hi : nat) : nat :=
bisect_loop (hi - lo) a x lo hi.

(** [random.choices(population, weights=weights)], one draw ([k=1]). *)
Definition random_choices {A} (population : list A) (weights : list float)
  : M (list A) :=
let n := List.length population in
let cum_weights := accumulate weights in
if negb (List.length cum_weights =? n)%nat then raise ValueError
else
  match rev cum_weights with
  | [] => raise IndexError
  | last :: _ =>
      let total := (last + 0)%float in
      if (total <=? 0)%float then raise ValueError
      else if negb (is_finite total) then raise ValueError
      else
        let hi := (n - 1)%nat in
        r <- random_random ;;
        match nth_error population (bisect cum_weights (r * total)%float 0 hi) with
        | Some x => ret [x]
        | None => raise IndexError
        end
  end.

(** ** [main.py]: constants, the spin and the orchestrator *)

Definition BUTTON_PIN : Z := 20.

Definition SERIAL_PORT : string := "/dev/ttyACM0".
Definition SERIAL_BAUD : Z := 115200.
Definition SERIAL_TIMEOUT : float := 1.

Definition GAMBLE_AMT : Z := 200.
Definition GAMBLE_CHANCES : list Z :=
[10; 50; 100; 200; 500; 1000; 10000; 100000]%Z.
Definition GAMBLE_WEIGHTS : list float :=
[0.5; 1; 0.5; 0.4; 0.35; 0.1; 0.01; 0.001]%float.

(** The module-level objects. *)
Record Globals : Type := mkGlobals {
  video_player : SlotMachineVideo.t;
  serial_comm : SerialCommunication.t;
  spin_button : Button.t
}.

Definition get_payout : M Z :=
drawn <- random_choices GAMBLE_CHANCES GAMBLE_WEIGHTS ;;
match drawn with
| payout :: _ => ret payout
| [] => raise IndexError
end.

Definition spin (video_player : SlotMachineVideo.t) : M Z :=
SlotMachineVideo.show_spin_animation video_player ;;
rand <- random_random ;;
if (rand <? 0.2)%float then
  SlotMachineVideo.show_win_animation video_player ;;
  get_payout
else
  SlotMachineVideo.show_lose_animation video_player ;;
  ret 0%Z.

(** The steps of the presentation in the order the specification lists them:
    spin animation; win gate and, if won, payout draw; win or lose animation;
    return the outcome. *)
Definition spin_as_specified (video_player : SlotMachineVideo.t) : M Z :=
SlotMachineVideo.show_spin_animation video_player ;;
rand <- random_random ;;
payout <- (if (rand <? 0.2)%float then get_payout else ret 0%Z) ;;
(if (rand <? 0.2)%float
 then SlotMachineVideo.show_win_animation video_player
 else SlotMachineVideo.show_lose_animation video_player) ;;
ret payout.

(** The body of [if spin_button.was_just_pressed():], one game turn. *)
Definition turn (g : Globals) : M unit :=
print "Spin button pressed! Starting spin..." ;;
SerialCommunication.send_data (serial_comm g)
  ("GAMBLE " ++ str_of_int GAMBLE_AMT)%string ;;
print ("Sent: GAMBLE " ++ str_of_int GAMBLE_AMT)%string ;;
payout <- spin (video_player g) ;;
(if (0 <? payout)%Z then
   SerialCommunication.send_data (serial_comm g)
     ("WIN " ++ str_of_int payout)%string ;;
   print ("Sent: WIN " ++ str_of_int payout ++ " - Won payout: "
          ++ str_of_int payout)%string
 else
   SerialCommunication.send_data (serial_comm g) "LOSE" ;;
   print "Sent: LOSE - No payout") ;;
asyncio_sleep 1.

(** One round of the [while True] of [handle_button_presses]. *)
Definition handle_button_presses_round (g : Globals) : M Globals :=
'(pressed, button) <- Button.was_just_pressed (spin_button g) ;;
let g' := mkGlobals (video_player g) (serial_comm g) button in
(if pressed then turn g' else ret tt) ;;
asyncio_sleep 0.05 ;;
ret g'.

(** Handle button press detection and trigger spins: the first [rounds]
    rounds of the loop, which has no exit of its own. *)
Fixpoint handle_button_presses (rounds : nat) (g : Globals) : M Globals :=
match rounds with
| O => ret g
| S rounds' =>
    g' <- handle_button_presses_round g ;;
    handle_button_presses rounds' g'
end.

(** ** Observations used in the statements *)

(** The events one animation of [frames] leaves: each frame displayed, then
    held for [delay]. *)
Definition frame_events (frames : list Image) (delay : float) : list event :=
flat_map (fun frame => [EvDisplay frame; EvSleep delay]) frames.

(** The payloads handed to [connection.write], in order. *)
Definition serial_writes (tr : list event) : list (list byte) :=
flat_map (fun ev => match ev with EvSerialWrite d => [d] | _ => [] end) tr.

(** The frames put on the display, in order. *)
Definition displayed (tr : list event) : list Image :=
flat_map (fun ev => match ev with EvDisplay f => [f] | _ => [] end) tr.

(** The delays awaited, in order. *)
Definition sleeps (tr : list event) : list float :=
flat_map (fun ev => match ev with EvSleep d => [d] | _ => [] end) tr.

(** The delay between two frames at the default rate, [1.0 / 10]. *)
Definition default_frame_delay : float := 0.1.

(** The events one presentation leaves, as [spin] orders them: the spin
    animation, the draw of the win gate, then the win animation followed by
    the draw of the payout, or the lose animation. *)
Definition presentation_events (video_player : SlotMachineVideo.t)
  (won : bool) : list event :=
frame_events (SlotMachineVideo.spin_frames video_player) default_frame_delay
++ [EvRandom]
++ (if won then
      frame_events (SlotMachineVideo.win_frames video_player)
        default_frame_delay
      ++ [EvRandom]
    else
      frame_events (SlotMachineVideo.lose_frames video_player)
        default_frame_delay).

(** The win gate on the next draw of the environment. *)
Definition gate_opens (env : Env) : bool :=
(random_value env (random_calls env) <? 0.2)%float.

(** The amount [random.choices] picks from the table when its draw is [r]:
    the entry whose cumulative-weight interval holds [r] times the total. *)
Definition weight_total : float :=
(last (accumulate GAMBLE_WEIGHTS) 0 + 0)%float.

Definition table_draw (r : float) : Z :=
nth (bisect (accumulate GAMBLE_WEIGHTS) (r * weight_total)%float 0
       (List.length GAMBLE_CHANCES - 1))
    GAMBLE_CHANCES 0%Z.

(** The payout of a presentation that starts in [env]: the table's pick for
    the draw after the gate's when the gate opens, 0 otherwise. *)
Definition spin_payout (env : Env) : Z :=
if gate_opens env then table_draw (random_value env (S (random_calls env)))
else 0%Z.

(** The line that reports a payout. *)
Definition outcome_line (payout : Z) : string :=
if (0 <? payout)%Z then ("WIN " ++ str_of_int payout)%string else "LOSE".

(** What the orchestrator prints after reporting a payout. *)
Definition report_message (payout : Z) : string :=
if (0 <? payout)%Z then
  ("Sent: WIN " ++ str_of_int payout ++ " - Won payout: "
   ++ str_of_int payout)%string
else "Sent: LOSE - No payout".

(** The bytes of a line on the wire: the text, then one newline. *)
Definition wire_line (text : string) : list byte := utf8_bytes text ++ [x0a].

(** ** The link as a state machine *)

(** The invariant of the link: a raised flag comes with a port object. *)
Definition link_invariant (self : SerialCommunication.t) : Prop :=
SerialCommunication.connected self = true ->
SerialCommunication.connection self <> None.

(** The link is up: the flag is raised and the port object is there, open. *)
Definition link_up (self : SerialCommunication.t) : Prop :=
SerialCommunication.connected self = true
/\ exists c, SerialCommunication.connection self = Some c
             /\ Serial.is_open c = true.

(** The four operations a client can call on the link. *)
Inductive operation : Type :=
| OpConnect
| OpDisconnect
| OpSendData (data : string)
| OpReadData.

Section Operations.

Variable json : Type.
Variable json_loads : string -> result json.

(** One call, keeping the object.  [disconnect] is the one operation that
    can raise (when [close] does); it assigns nothing before [close] returns,
    so a caller that catches the error holds the object as it was. *)
Definition perform (op : operation) (self : SerialCommunication.t)
  : M SerialCommunication.t :=
match op with
| OpConnect =>
    '(_, self') <- SerialCommunication.connect self ;;
    ret self'
| OpDisconnect =>
    try_except (SerialCommunication.disconnect self) (fun _ => ret self)
| OpSendData data =>
    SerialCommunication.send_data self data ;;
    ret self
| OpReadData =>
    SerialCommunication.read_data json_loads self ;;
    ret self
end.

Fixpoint perform_all (ops : list operation) (self : SerialCommunication.t)
  : M SerialCommunication.t :=
match ops with
| [] => ret self
| op :: ops' =>
    self' <- perform op self ;;
    perform_all ops' self'
end.

End Operations.

Arguments perform {json} json_loads op self.
Arguments perform_all {json} json_loads ops self.




(** ** Drivers for the statements about several calls *)

(** [send_data] called once per line, in order; the answers in order. *)
Fixpoint send_all (self : SerialCommunication.t) (lines : list string)
  : M (list bool) :=
match lines with
| [] => ret []
| line :: rest =>
    sent <- SerialCommunication.send_data self line ;;
    sents <- send_all self rest ;;
    ret (sent :: sents)
end.

(** The loop [while not serial_comm.connect(): await asyncio.sleep(0.5)] of
    [main], cut after [attempts] calls of [connect]: the connected link when
    a call has returned True, [None] while the loop is still trying. *)
Fixpoint main_connect_loop (attempts : nat) (serial_comm : SerialCommunication.t)
  : M (option SerialCommunication.t) :=
match attempts with
| O => ret None
| S attempts' =>
    '(ok, serial_comm') <- SerialCommunication.connect serial_comm ;;
    if ok then ret (Some serial_comm')
    else
      asyncio_sleep 0.5 ;;
      main_connect_loop attempts' serial_comm'
end.

(** The rising edges among the [n] samples from the [start]-th upcoming one,
    [prev] being the sample before them. *)
Fixpoint rising_edges (env : Env) (prev : bool) (start n : nat) : nat :=
match n with
| O => 0
| S n' =>
    (if sample env start && negb prev then 1 else 0)
    + rising_edges env (sample env start) (S start) n'
end.

(** The number of calls of [random.random()] in a trace. *)
Definition random_draws (tr : list event) : nat :=
List.length (filter (fun ev => match ev with EvRandom => true | _ => false end) tr).

(** ** Concrete inputs for the examples *)

Definition demo_port : Serial.t :=
Serial.mk SERIAL_PORT SERIAL_BAUD SERIAL_TIMEOUT true.

Definition demo_link_up : SerialCommunication.t :=
SerialCommunication.mk SERIAL_PORT SERIAL_BAUD SERIAL_TIMEOUT
  (Some demo_port) true.

Definition demo_link_down : SerialCommunication.t :=
SerialCommunication.__init__ SERIAL_PORT SERIAL_BAUD SERIAL_TIMEOUT.

(** A quiet environment: the button released, every draw 0.5, no fault on
    the port, [received] waiting to be read. *)
Definition quiet_env (received : list byte) : Env :=
mkEnv (fun _ => GPIO_HIGH) 0 (fun _ => 0.5%float) 0 (fun _ => None) 0
      [] [] received [].

(** The text "WIN " followed by the lone surrogate U+D800, which has no
    UTF-8 encoding. *)
Definition surrogate_line : string :=
("WIN " ++ string_of_list_byte [xed; xa0; x80])%string.

(** A stand-in for [json.loads] that knows one document, the empty object. *)
Definition demo_json_loads (s : string) : result string :=
if String.eqb s "{}" then Ok s else Raise JSONDecodeError.

(** A player with one win frame, one lose frame and one spin frame. *)
Definition demo_player : SlotMachineVideo.t :=
SlotMachineVideo.mk [Frame "win_000.png"] [Frame "lose_000.png"]
  [Frame "spin_000.png"].

(** An environment whose first draw opens the win gate (0.1 is below 0.2) and
    whose later draws are 0.999; the button reads pressed on the first poll
    and released afterwards; no fault on the port. *)
Definition winning_env : Env :=
mkEnv (fun k => match k with O => GPIO_LOW | S _ => GPIO_HIGH end) 0
      (fun k => match k with O => 0.1%float | S _ => 0.999%float end) 0
      (fun _ => None) 0 [] [] [] [].

(** The objects of the program at the start of the polling loop, once
    [connect] has succeeded. *)
Definition demo_globals : Globals :=
mkGlobals demo_player demo_link_up (Button.__init__ BUTTON_PIN).

(** An environment whose first draw keeps the win gate shut (0.5 is not
    below 0.2); the button reads pressed on the first poll and released
    afterwards; no fault on the port. *)
Definition losing_env : Env :=
mkEnv (fun k => match k with O => GPIO_LOW | S _ => GPIO_HIGH end) 0
      (fun _ => 0.5%float) 0 (fun _ => None) 0 [] [] [] [].

(** An environment whose port raises [SerialException] on the first [n]
    operations and works afterwards; the button is released, every draw is
    0.5, [received] is waiting to be read. *)
Definition failing_first_env (n : nat) (received : list byte) : Env :=
mkEnv (fun _ => GPIO_HIGH) 0 (fun _ => 0.5%float) 0
      (fun k => if (k <? n)%nat then Some SerialException else None) 0
      [] [] received [].

(** An environment whose port never works. *)
Definition dead_port_env : Env :=
mkEnv (fun _ => GPIO_HIGH) 0 (fun _ => 0.5%float) 0
      (fun _ => Some SerialException) 0 [] [] [] [].

(** A frame directory with three matching files, listed out of order, the
    second of which does not open. *)
Definition demo_exists (dir : string) : bool := String.eqb dir "letsgo_frames".

Definition demo_glob (pattern : string) : list string :=
if String.eqb pattern "letsgo_frames/*.png" then
  ["letsgo_frames/frame_002.png"; "letsgo_frames/frame_000.png";
   "letsgo_frames/frame_001.png"]%string
else [].

Definition demo_open_error (file : string) : option exn :=
if String.eqb file "letsgo_frames/frame_001.png" then Some OSError else None.

(** An environment in which the button reads pressed, pressed, released,
    pressed on the first four polls and released afterwards; every draw is
    0.5 and the port works. *)
Definition two_presses_env : Env :=
mkEnv (fun k => match k with
                | 0 | 1 | 3 => GPIO_LOW
                | _ => GPIO_HIGH
                end) 0
      (fun _ => 0.5%float) 0 (fun _ => None) 0 [] [] [] [].

(** The objects of the program with a link that was never connected. *)
Definition demo_globals_link_down : Globals :=
mkGlobals demo_player demo_link_down (Button.__init__ BUTTON_PIN).

(** * Theorems *)

(** ** Basic facts about the environment *)

Lemma set_trace_same (env : Env) : set_trace (trace env ++ []) env = env.
Proof. destruct env; unfold set_trace; simpl. now rewrite app_nil_r. Qed.

Lemma utf8_bytes_app (s1 s2 : string) :
  utf8_bytes (s1 ++ s2)%string = utf8_bytes s1 ++ utf8_bytes s2.
Proof.
  unfold utf8_bytes, list_byte_of_string.
  induction s1 as [|a s1 IH]; simpl; [reflexivity|].
  now rewrite IH.
Qed.

Lemma utf8_bytes_line (s : string) :
  utf8_bytes (s ++ newline)%string = utf8_bytes s ++ [x0a].
Proof. now rewrite utf8_bytes_app. Qed.

(** A newline after a text neither breaks nor repairs it: it is no
    continuation byte. *)
Lemma utf8_wellformed_line (bs : list byte) :
  utf8_wellformed (bs ++ [x0a]) = utf8_wellformed bs.
Proof.
  assert (H : forall n bs, List.length bs <= n ->
                utf8_wellformed (bs ++ [x0a]) = utf8_wellformed bs).
  { clear bs. induction n as [|n IH]; intros bs Hlen.
    - destruct bs; [reflexivity | cbn in Hlen; lia].
    - destruct bs as [|b0 [|b1 [|b2 [|b3 t3]]]]; cbn [app utf8_wellformed].
      + reflexivity.
      + destruct (byte_between 0 127 b0); [reflexivity|].
        destruct (byte_between 194 223 b0); reflexivity.
      + destruct (byte_between 0 127 b0).
        { apply (IH [b1]). cbn in *; lia. }
        destruct (byte_between 194 223 b0); [reflexivity|].
        destruct (byte_between 224 239 b0); [|reflexivity].
        cbn. now rewrite andb_false_r.
      + destruct (byte_between 0 127 b0).
        { apply (IH [b1; b2]). cbn in *; lia. }
        destruct (byte_between 194 223 b0).
        { f_equal. apply (IH [b2]). cbn in *; lia. }
        destruct (byte_between 224 239 b0); [reflexivity|].
        cbn. now rewrite !andb_false_r.
      + destruct (byte_between 0 127 b0).
        { apply (IH (b1 :: b2 :: b3 :: t3)). cbn in *; lia. }
        destruct (byte_between 194 223 b0).
        { f_equal. apply (IH (b2 :: b3 :: t3)). cbn in *; lia. }
        destruct (byte_between 224 239 b0).
        { f_equal. apply (IH (b3 :: t3)). cbn in *; lia. }
        f_equal. apply IH. cbn in *; lia. }
  now apply (H (List.length bs)).
Qed.

(** Encoding a line: the bytes of the text and the newline, when the text
    encodes. *)
Lemma encode_utf8_line (s : string) :
  encode_utf8 (s ++ newline)%string
  = if utf8_wellformed (utf8_bytes s) then Ok (utf8_bytes s ++ [x0a])
    else Raise UnicodeEncodeError.
Proof.
  unfold encode_utf8. now rewrite utf8_bytes_line, utf8_wellformed_line.
Qed.

(** ** The button (C1, C9) *)

(** One poll, in full: the answer is "pressed now and not pressed before",
    and the stored state becomes the sample just read. *)
Lemma was_just_pressed_run (b : Button.t) (env : Env) :
  Button.was_just_pressed b env =
  (Ok (sample env 0 && negb (Button.last_state b),
       Button.mk (Button.pin b) (sample env 0)),
   set_gpio_reads (S (gpio_reads env))
     (set_trace (trace env ++ [EvGpioInput (Button.pin b)]) env)).
Proof.
  unfold Button.was_just_pressed, Button.is_pressed, GPIO_input, sample.
  rewrite Nat.add_0_r. cbn.
  destruct (gpio_level env (gpio_reads env) =? GPIO_LOW)%Z;
    destruct (Button.last_state b); reflexivity.
Qed.

Lemma sample_after_poll (env : Env) (tr : list event) (k : nat) :
  sample (set_gpio_reads (S (gpio_reads env)) (set_trace tr env)) k
  = sample env (S k).
Proof. unfold sample; cbn. now rewrite Nat.add_succ_r. Qed.

(** A run of polls, in full. *)
Lemma poll_sequence_run (n : nat) :
  forall (b : Button.t) (env : Env),
  exists outs env',
    poll_sequence n b env
    = (Ok (outs, match n with
                 | O => b
                 | S m => Button.mk (Button.pin b) (sample env m)
                 end), env')
    /\ List.length outs = n
    /\ forall k, k < n ->
         nth k outs false = sample env k && negb (preceding env b k).
Proof.
  induction n as [|n IH]; intros b env.
  - exists [], env. split; [reflexivity|]. split; [reflexivity|].
    intros k Hk; lia.
  - cbn [poll_sequence]. unfold bind at 1. rewrite was_just_pressed_run.
    set (b1 := Button.mk (Button.pin b) (sample env 0)).
    set (env1 := set_gpio_reads _ _).
    destruct (IH b1 env1) as (outs & env' & Hrun & Hlen & Hnth).
    unfold bind at 1. rewrite Hrun.
    exists ((sample env 0 && negb (Button.last_state b)) :: outs), env'.
    split; [|split].
    + unfold ret. f_equal. f_equal. f_equal.
      destruct n as [|m]; [reflexivity|].
      subst b1 env1; cbn [Button.pin]. now rewrite sample_after_poll.
    + simpl. now rewrite Hlen.
    + intros [|k] Hk; [reflexivity|].
      cbn [nth]. rewrite Hnth by lia.
      subst env1. rewrite sample_after_poll.
      destruct k as [|j]; cbn [preceding].
      * reflexivity.
      * now rewrite sample_after_poll.
Qed.

(** A button fresh from its constructor stores "not pressed". *)
Lemma preceding_fresh (env : Env) (pin : Z) :
  preceding env (Button.__init__ pin) 0 = false.
Proof. reflexivity. Qed.

(** C1.  Whatever the samples of the line are, the k-th poll of a run answers
    true exactly when its own sample reads pressed and the sample it is
    compared with read not pressed: the sample of the poll just before, or,
    for a poll that has none, the stored state (false in a new button).  So a
    poll answers false while the button stays held or stays released, and of
    two pressed samples in a row the second never reports an edge. *)
Theorem was_just_pressed_rising_edge :
  forall (env : Env) (b : Button.t) (n : nat),
  exists outs b' env',
    poll_sequence n b env = (Ok (outs, b'), env')
    /\ List.length outs = n
    /\ (forall k, k < n ->
          (nth k outs false = true
           <-> sample env k = true /\ preceding env b k = false))
    /\ (forall k, S k < n ->
          sample env k = sample env (S k) -> nth (S k) outs false = false).
Proof.
  intros env b n.
  destruct (poll_sequence_run n b env) as (outs & env' & Hrun & Hlen & Hnth).
  eexists outs, _, env'. split; [exact Hrun|]. split; [exact Hlen|]. split.
  - intros k Hk. rewrite (Hnth k Hk).
    destruct (sample env k), (preceding env b k); cbn; intuition congruence.
  - intros k Hk Hsame. rewrite (Hnth (S k) Hk). cbn [preceding].
    rewrite <- Hsame. now destruct (sample env k).
Qed.

(** C9.  A poll stores the sample it has just read, whatever it answers and
    whatever was stored before; after any run of polls the button holds the
    sample of the last one and nothing older. *)
Theorem was_just_pressed_sets_last_state :
  forall (env : Env) (b : Button.t),
    (exists answer env',
       Button.was_just_pressed b env
       = (Ok (answer, Button.mk (Button.pin b) (sample env 0)), env'))
    /\ (forall n, exists outs env',
          poll_sequence (S n) b env
          = (Ok (outs, Button.mk (Button.pin b) (sample env n)), env')).
Proof.
  intros env b. split.
  - rewrite was_just_pressed_run. eauto.
  - intros n.
    destruct (poll_sequence_run (S n) b env) as (outs & env' & Hrun & _).
    eauto.
Qed.

(** ** Animations (C8) *)

(** C8.  Playing an empty frame sequence returns at once, at any frame rate
    (the delay is not even computed): the environment is left as it was, so
    no frame is displayed and no delay is awaited. *)
Theorem play_animation_empty :
  forall (self : SlotMachineVideo.t) (fps : Z) (env : Env),
    SlotMachineVideo.play_animation self [] fps env = (Ok tt, env)
    /\ displayed (trace (snd (SlotMachineVideo.play_animation self [] fps env)))
       = displayed (trace env)
    /\ sleeps (trace (snd (SlotMachineVideo.play_animation self [] fps env)))
       = sleeps (trace env).
Proof. intros self fps env. repeat split. Qed.

(** ** Sending (C5, C6) *)

Lemma io_attempt_run (ev : event) (env : Env) :
  io_attempt ev env =
  (match io_error env (io_calls env) with
   | Some e => Raise e
   | None => Ok tt
   end,
   set_io_calls (S (io_calls env)) (set_trace (trace env ++ [ev]) env)).
Proof. reflexivity. Qed.

(** C6.  Without a connection (the flag is down, or there is no port object)
    [send_data] returns False after the diagnostic "No serial connection
    available" and does nothing else: no operation on the port, nothing
    written, nothing flushed. *)
Theorem send_data_not_connected :
  forall (self : SerialCommunication.t) (data : string) (env : Env),
    SerialCommunication.connected self = false
    \/ SerialCommunication.connection self = None ->
    SerialCommunication.send_data self data env
    = (Ok false,
       set_trace (trace env ++ [EvPrint "No serial connection available"]) env)
    /\ serial_writes (trace (snd (SerialCommunication.send_data self data env)))
       = serial_writes (trace env)
    /\ wire (snd (SerialCommunication.send_data self data env)) = wire env
    /\ tx_pending (snd (SerialCommunication.send_data self data env))
       = tx_pending env
    /\ io_calls (snd (SerialCommunication.send_data self data env))
       = io_calls env.
Proof.
  intros self data env H.
  assert (E : SerialCommunication.send_data self data env
              = (Ok false,
                 set_trace
                   (trace env ++ [EvPrint "No serial connection available"])
                   env)).
  { unfold SerialCommunication.send_data.
    destruct H as [H|H]; rewrite H; [reflexivity|].
    now rewrite orb_true_r. }
  rewrite E. split; [reflexivity|]. cbn.
  unfold serial_writes. rewrite flat_map_app. cbn. rewrite app_nil_r.
  repeat split.
Qed.

Lemma send_data_not_connected_witness :
  SerialCommunication.send_data demo_link_down "LOSE" (quiet_env [])
  = (Ok false,
     set_trace (trace (quiet_env [])
                ++ [EvPrint "No serial connection available"]) (quiet_env []))
  /\ wire (snd (SerialCommunication.send_data demo_link_down "LOSE"
                  (quiet_env []))) = [].
Proof.
  destruct (send_data_not_connected demo_link_down "LOSE" (quiet_env [])
              (or_introl eq_refl)) as (H1 & _ & H2 & _).
  split; [exact H1 | exact H2].
Defined.

(** [send_data] on a link that is up, for a text that encodes, when the port
    takes the write and the flush. *)
Lemma send_data_run (self : SerialCommunication.t) (c : Serial.t)
  (data : string) (env : Env) :
  SerialCommunication.connected self = true ->
  SerialCommunication.connection self = Some c ->
  Serial.is_open c = true ->
  utf8_wellformed (utf8_bytes data) = true ->
  io_error env (io_calls env) = None ->
  io_error env (S (io_calls env)) = None ->
  SerialCommunication.send_data self data env
  = (Ok true,
     set_line [] (wire env ++ tx_pending env ++ utf8_bytes data ++ [x0a])
       (rx_buffer env)
       (set_io_calls (S (S (io_calls env)))
          (set_trace
             (trace env
              ++ [EvSerialWrite (utf8_bytes data ++ [x0a]); EvSerialFlush])
             env))).
Proof.
  intros Hconn Hc Hopen Henc Hw Hf.
  unfold SerialCommunication.send_data. rewrite Hconn, Hc.
  cbn [negb orb SerialCommunication.truthy].
  unfold try_except, Serial.write, Serial.flush. rewrite Hopen.
  rewrite encode_utf8_line, Henc.
  unfold bind, lift. rewrite !io_attempt_run. cbn. rewrite Hw. cbn. rewrite Hf.
  unfold ret, set_line, set_io_calls, set_trace; cbn.
  now rewrite <- !app_assoc.
Qed.

(** [send_data] on a link that is up, for a text that does not encode: the
    error of the encoding is caught, nothing is handed to the port. *)
Lemma send_data_unencodable_run (self : SerialCommunication.t) (c : Serial.t)
  (data : string) (env : Env) :
  SerialCommunication.connected self = true ->
  SerialCommunication.connection self = Some c ->
  utf8_wellformed (utf8_bytes data) = false ->
  SerialCommunication.send_data self data env
  = (Ok false,
     set_trace
       (trace env ++ [EvPrintExn "Error sending data: " UnicodeEncodeError])
       env).
Proof.
  intros Hconn Hc Henc.
  unfold SerialCommunication.send_data. rewrite Hconn, Hc.
  cbn [negb orb SerialCommunication.truthy].
  unfold try_except. rewrite encode_utf8_line, Henc. reflexivity.
Qed.

(** C5, as the code has it.  On a link that is up, for a text that encodes
    as UTF-8 (it holds no lone surrogate), while the port takes the write and
    the flush, [send_data data] hands [connection.write] exactly the bytes of
    [data] followed by one newline, then flushes, and returns True: these
    bytes reach the wire (after whatever an earlier failed flush had left
    pending) and nothing stays pending. *)
Theorem send_data_writes_line :
  forall (self : SerialCommunication.t) (c : Serial.t) (data : string)
         (env : Env),
    SerialCommunication.connected self = true ->
    SerialCommunication.connection self = Some c ->
    Serial.is_open c = true ->
    utf8_wellformed (utf8_bytes data) = true ->
    io_error env (io_calls env) = None ->
    io_error env (S (io_calls env)) = None ->
    let after := snd (SerialCommunication.send_data self data env) in
    fst (SerialCommunication.send_data self data env) = Ok true
    /\ trace after
       = trace env
         ++ [EvSerialWrite (utf8_bytes data ++ [x0a]); EvSerialFlush]
    /\ wire after = wire env ++ tx_pending env ++ utf8_bytes data ++ [x0a]
    /\ tx_pending after = []
    /\ rx_buffer after = rx_buffer env.
Proof.
  intros self c data env Hconn Hc Hopen Henc Hw Hf after. subst after.
  rewrite (send_data_run self c data env Hconn Hc Hopen Henc Hw Hf).
  repeat split.
Qed.

(** [send_data("LOSE")] on a fresh connected link puts exactly the five bytes
    L, O, S, E, newline on the wire. *)
Lemma send_data_writes_line_witness :
  fst (SerialCommunication.send_data demo_link_up "LOSE" (quiet_env []))
  = Ok true
  /\ wire (snd (SerialCommunication.send_data demo_link_up "LOSE"
                  (quiet_env [])))
     = [x4c; x4f; x53; x45; x0a]
  /\ tx_pending (snd (SerialCommunication.send_data demo_link_up "LOSE"
                        (quiet_env []))) = [].
Proof.
  destruct (send_data_writes_line demo_link_up demo_port "LOSE" (quiet_env [])
              eq_refl eq_refl eq_refl eq_refl eq_refl eq_refl)
    as (H1 & _ & H2 & H3 & _).
  split; [exact H1|]. split; [exact H2 | exact H3].
Defined.

(** C5, for every string, fails: a text with a lone surrogate has no UTF-8
    bytes.  On a connected link with a working port, [send_data] of
    "WIN " followed by U+D800 catches the error of the encoding, prints the
    diagnostic and returns False; [write] is not called and nothing reaches
    the wire. *)
Lemma send_data_unencodable_counterexample :
  SerialCommunication.send_data demo_link_up surrogate_line (quiet_env [])
  = (Ok false,
     set_trace [EvPrintExn "Error sending data: " UnicodeEncodeError]
       (quiet_env []))
  /\ fst (SerialCommunication.send_data demo_link_up surrogate_line
            (quiet_env [])) <> Ok true
  /\ serial_writes
       (trace (snd (SerialCommunication.send_data demo_link_up surrogate_line
                      (quiet_env [])))) = []
  /\ wire (snd (SerialCommunication.send_data demo_link_up surrogate_line
                  (quiet_env []))) = [].
Proof.
  split; [reflexivity|]. split; [discriminate|]. split; reflexivity.
Qed.

(** ** The link invariant (C10) *)

(** A [try] whose handler cannot raise does not raise. *)
Lemma try_except_returns {A} (body : M A) (handler : exn -> M A) (env : Env) :
  (forall e env1, exists a env2, handler e env1 = (Ok a, env2)) ->
  exists a env', try_except body handler env = (Ok a, env').
Proof.
  intros Hh. unfold try_except.
  destruct (body env) as [[a|e] env1]; [eauto | apply Hh].
Qed.

Lemma send_data_returns (self : SerialCommunication.t) (data : string)
  (env : Env) :
  exists sent env', SerialCommunication.send_data self data env = (Ok sent, env').
Proof.
  unfold SerialCommunication.send_data.
  destruct (negb (SerialCommunication.connected self)
            || negb (SerialCommunication.truthy
                       (SerialCommunication.connection self))).
  - eexists _, _. reflexivity.
  - apply try_except_returns. intros e env1. eexists _, _. reflexivity.
Qed.

Lemma read_data_returns {json : Type} (json_loads : string -> result json)
  (self : SerialCommunication.t) (env : Env) :
  exists msg env',
    SerialCommunication.read_data json_loads self env = (Ok msg, env').
Proof.
  unfold SerialCommunication.read_data.
  destruct (negb (SerialCommunication.connected self)
            || negb (SerialCommunication.truthy
                       (SerialCommunication.connection self))).
  - eexists _, _. reflexivity.
  - apply try_except_returns. intros e env1. eexists _, _. reflexivity.
Qed.

(** [connect] never raises; it ends with the flag raised on a new open port,
    or with the flag down and the port object it had. *)
Lemma connect_run (self : SerialCommunication.t) (env : Env) :
  exists ok self' env',
    SerialCommunication.connect self env = (Ok (ok, self'), env')
    /\ SerialCommunication.connected self' = ok
    /\ (ok = true -> link_up self')
    /\ (ok = false ->
        SerialCommunication.connection self'
        = SerialCommunication.connection self).
Proof.
  unfold SerialCommunication.connect, try_except, Serial.__init__.
  unfold bind at 1. unfold bind at 1. rewrite io_attempt_run.
  destruct (io_error env (io_calls env)) as [e|].
  - destruct (is_SerialException e); eexists false, _, _;
      (split; [reflexivity|]); cbn; (split; [reflexivity|]);
      (split; [discriminate | reflexivity]).
  - eexists true, _, _. split; [reflexivity|]. cbn.
    split; [reflexivity|]. split; [|discriminate].
    intros _. split; [reflexivity|]. eexists. split; reflexivity.
Qed.

(** [disconnect] returns the object with the flag down, or untouched, or
    raises out of [close]. *)
Lemma disconnect_run (self : SerialCommunication.t) (env : Env) :
  forall self' env',
    SerialCommunication.disconnect self env = (Ok self', env') ->
    self' = self \/ SerialCommunication.connected self' = false.
Proof.
  intros self' env'. unfold SerialCommunication.disconnect.
  destruct (SerialCommunication.connection self) as [c|].
  - destruct (Serial.is_open c) eqn:Hopen.
    + unfold Serial.close. rewrite Hopen. unfold bind at 1. unfold bind at 1.
      rewrite io_attempt_run.
      destruct (io_error env (io_calls env)); cbn; intros H; inversion H.
      right; reflexivity.
    + intros H; inversion H. now left.
  - intros H; inversion H. now left.
Qed.

Lemma link_up_invariant (self : SerialCommunication.t) :
  link_up self -> link_invariant self.
Proof. intros (_ & c & Hc & _) _. rewrite Hc. discriminate. Qed.

(** Each operation returns, and keeps the invariant. *)
Lemma perform_keeps_invariant {json : Type}
  (json_loads : string -> result json) (op : operation)
  (self : SerialCommunication.t) (env : Env) :
  link_invariant self ->
  exists self' env',
    perform json_loads op self env = (Ok self', env') /\ link_invariant self'.
Proof.
  intros Hinv. destruct op as [| |data|]; cbn [perform].
  - destruct (connect_run self env) as (ok & self' & env' & Hrun & Hflag & Hup & _).
    unfold bind. rewrite Hrun. eexists _, _. split; [reflexivity|].
    destruct ok.
    + apply link_up_invariant. now apply Hup.
    + intros H. congruence.
  - unfold try_except.
    destruct (SerialCommunication.disconnect self env) as [[self'|e] env'] eqn:Hrun.
    + eexists _, _. split; [reflexivity|].
      destruct (disconnect_run self env self' env' Hrun) as [->|Hdown]; [exact Hinv|].
      intros H. congruence.
    + eexists _, _. split; [reflexivity | exact Hinv].
  - destruct (send_data_returns self data env) as (sent & env' & Hrun).
    unfold bind. rewrite Hrun. eexists _, _. split; [reflexivity | exact Hinv].
  - destruct (read_data_returns json_loads self env) as (msg & env' & Hrun).
    unfold bind. rewrite Hrun. eexists _, _. split; [reflexivity | exact Hinv].
Qed.

Lemma perform_all_keeps_invariant {json : Type}
  (json_loads : string -> result json) (ops : list operation) :
  forall (self : SerialCommunication.t) (env : Env),
    link_invariant self ->
    exists self' env',
      perform_all json_loads ops self env = (Ok self', env')
      /\ link_invariant self'.
Proof.
  induction ops as [|op ops IH]; intros self env Hinv; cbn [perform_all].
  - eexists _, _. split; [reflexivity | exact Hinv].
  - destruct (perform_keeps_invariant json_loads op self env Hinv)
      as (self1 & env1 & Hrun & Hinv1).
    unfold bind. rewrite Hrun. now apply IH.
Qed.

(** C10.  Start from a new link object and call [connect], [disconnect],
    [send_data] and [read_data] in any order, in any environment: every call
    returns, and the object reached has a port object whenever its flag is
    raised.  On that object, as on any other, [send_data] and [read_data]
    return a value and never raise; where the port object is missing they
    take the not-connected branch, which returns False (after the
    diagnostic) or None and does not touch the environment otherwise. *)
Theorem connection_invariant :
  forall (json : Type) (json_loads : string -> result json)
         (port : string) (baud : Z) (timeout : float)
         (ops : list operation) (env : Env),
  exists self env',
    perform_all json_loads ops
      (SerialCommunication.__init__ port baud timeout) env = (Ok self, env')
    /\ link_invariant self
    /\ (forall data env1, exists sent env2,
          SerialCommunication.send_data self data env1 = (Ok sent, env2))
    /\ (forall env1, exists msg env2,
          SerialCommunication.read_data json_loads self env1 = (Ok msg, env2))
    /\ (SerialCommunication.connection self = None ->
        SerialCommunication.connected self = false
        /\ (forall data env1,
              SerialCommunication.send_data self data env1
              = (Ok false,
                 set_trace
                   (trace env1 ++ [EvPrint "No serial connection available"])
                   env1))
        /\ (forall env1,
              SerialCommunication.read_data json_loads self env1
              = (Ok None, env1))).
Proof.
  intros json json_loads port baud timeout ops env.
  destruct (perform_all_keeps_invariant json_loads ops
              (SerialCommunication.__init__ port baud timeout) env)
    as (self & env' & Hrun & Hinv).
  { intros H; discriminate H. }
  exists self, env'. split; [exact Hrun|]. split; [exact Hinv|].
  split; [intros; apply send_data_returns|].
  split; [intros; apply read_data_returns|].
  intros Hnone. split; [|split].
  - destruct (SerialCommunication.connected self) eqn:E; [|reflexivity].
    exfalso. now apply Hinv.
  - intros data env1. unfold SerialCommunication.send_data.
    rewrite Hnone. now rewrite orb_true_r.
  - intros env1. unfold SerialCommunication.read_data.
    rewrite Hnone. now rewrite orb_true_r.
Qed.

(** ** Reading (C7) *)

(** The environment after [read_data] has asked for the buffered count and
    read one line, [rest] being what stays buffered. *)
Lemma read_data_line_run {json : Type} (json_loads : string -> result json)
  (self : SerialCommunication.t) (c : Serial.t) (env : Env)
  (raw rest : list byte) :
  SerialCommunication.connected self = true ->
  SerialCommunication.connection self = Some c ->
  Serial.is_open c = true ->
  io_error env (io_calls env) = None ->
  io_error env (S (io_calls env)) = None ->
  rx_buffer env <> [] ->
  split_line (rx_buffer env) = (raw, rest) ->
  let after :=
    set_line (tx_pending env) (wire env) rest
      (set_io_calls (S (S (io_calls env)))
         (set_trace (trace env ++ [EvSerialInWaiting; EvSerialReadline]) env))
  in
  SerialCommunication.read_data json_loads self env
  = match decode_utf8 raw with
    | Ok text =>
        if str_truthy (str_strip text) then
          match json_loads (str_strip text) with
          | Ok v => (Ok (Some v), after)
          | Raise e =>
              (Ok None,
               set_trace (trace after ++ [EvPrintExn "Error reading data: " e])
                 after)
          end
        else (Ok None, after)
    | Raise e =>
        (Ok None,
         set_trace (trace after ++ [EvPrintExn "Error reading data: " e])
           after)
    end.
Proof.
  intros Hconn Hc Hopen Hio1 Hio2 Hbuf Hsplit after. subst after.
  unfold SerialCommunication.read_data. rewrite Hconn, Hc.
  cbn [negb orb SerialCommunication.truthy].
  unfold try_except, Serial.in_waiting, Serial.readline. rewrite Hopen.
  unfold bind, lift. rewrite !io_attempt_run. cbn. rewrite Hio1. cbn.
  assert (Hpos : (0 <? Z.of_nat (List.length (rx_buffer env)))%Z = true).
  { destruct (rx_buffer env); [congruence|]. reflexivity. }
  rewrite Hpos. cbn. rewrite Hio2, Hsplit. cbn.
  destruct (decode_utf8 raw) as [text|e]; cbn.
  - destruct (str_truthy (str_strip text)); cbn.
    + destruct (json_loads (str_strip text)) as [v|e]; cbn;
        unfold ret, set_line, set_io_calls, set_trace; cbn;
        rewrite <- ?app_assoc; reflexivity.
    + unfold ret, set_line, set_io_calls, set_trace; cbn.
      rewrite <- ?app_assoc; reflexivity.
  - unfold set_line, set_io_calls, set_trace; cbn.
    rewrite <- ?app_assoc; reflexivity.
Qed.

(** C7, as the code has it.  On a link that is up, with the port answering,
    [read_data] on a buffered line never raises and takes the line off the
    buffer for good.  When the line is not valid structured data the result
    is None: after the diagnostic "Error reading data: ..." with the error
    when the line is not UTF-8 or when, stripped, it is not empty and
    [json.loads] raises on it; without any diagnostic when the line is empty
    once stripped. *)
Theorem read_data_malformed_line :
  forall (json : Type) (json_loads : string -> result json)
         (self : SerialCommunication.t) (c : Serial.t) (env : Env)
         (raw rest : list byte),
    SerialCommunication.connected self = true ->
    SerialCommunication.connection self = Some c ->
    Serial.is_open c = true ->
    io_error env (io_calls env) = None ->
    io_error env (S (io_calls env)) = None ->
    rx_buffer env <> [] ->
    split_line (rx_buffer env) = (raw, rest) ->
    let after := snd (SerialCommunication.read_data json_loads self env) in
    (exists msg,
       fst (SerialCommunication.read_data json_loads self env) = Ok msg)
    /\ rx_buffer after = rest
    /\ wire after = wire env
    /\ tx_pending after = tx_pending env
    /\ (forall e,
          decode_utf8 raw = Raise e
          \/ (exists text,
                decode_utf8 raw = Ok text
                /\ str_truthy (str_strip text) = true
                /\ json_loads (str_strip text) = Raise e) ->
          fst (SerialCommunication.read_data json_loads self env) = Ok None
          /\ trace after
             = trace env
               ++ [EvSerialInWaiting; EvSerialReadline;
                   EvPrintExn "Error reading data: " e])
    /\ (forall text,
          decode_utf8 raw = Ok text ->
          str_truthy (str_strip text) = false ->
          fst (SerialCommunication.read_data json_loads self env) = Ok None
          /\ trace after
             = trace env ++ [EvSerialInWaiting; EvSerialReadline]).
Proof.
  intros json json_loads self c env raw rest
         Hconn Hc Hopen Hio1 Hio2 Hbuf Hsplit after.
  subst after.
  rewrite (read_data_line_run json_loads self c env raw rest
             Hconn Hc Hopen Hio1 Hio2 Hbuf Hsplit).
  split; [|split; [|split; [|split; [|split]]]].
  - destruct (decode_utf8 raw) as [text|e]; [|eexists; reflexivity].
    destruct (str_truthy (str_strip text)); [|eexists; reflexivity].
    destruct (json_loads (str_strip text)); eexists; reflexivity.
  - destruct (decode_utf8 raw) as [text|e]; [|reflexivity].
    destruct (str_truthy (str_strip text)); [|reflexivity].
    destruct (json_loads (str_strip text)); reflexivity.
  - destruct (decode_utf8 raw) as [text|e]; [|reflexivity].
    destruct (str_truthy (str_strip text)); [|reflexivity].
    destruct (json_loads (str_strip text)); reflexivity.
  - destruct (decode_utf8 raw) as [text|e]; [|reflexivity].
    destruct (str_truthy (str_strip text)); [|reflexivity].
    destruct (json_loads (str_strip text)); reflexivity.
  - intros e [Hdec | (text & Hdec & Htruthy & Hjson)].
    + rewrite Hdec. cbn. rewrite <- ?app_assoc. split; reflexivity.
    + rewrite Hdec, Htruthy, Hjson. cbn. rewrite <- ?app_assoc.
      split; reflexivity.
  - intros text Hdec Hblank. rewrite Hdec, Hblank. split; reflexivity.
Qed.

(** The buffered line "{oops" is not JSON: it is read, reported and dropped. *)
Lemma read_data_malformed_line_witness :
  fst (SerialCommunication.read_data demo_json_loads demo_link_up
         (quiet_env (utf8_bytes "{oops" ++ [x0a])))
  = Ok None
  /\ trace (snd (SerialCommunication.read_data demo_json_loads demo_link_up
                   (quiet_env (utf8_bytes "{oops" ++ [x0a]))))
     = [EvSerialInWaiting; EvSerialReadline;
        EvPrintExn "Error reading data: " JSONDecodeError]
  /\ rx_buffer (snd (SerialCommunication.read_data demo_json_loads
                       demo_link_up
                       (quiet_env (utf8_bytes "{oops" ++ [x0a]))))
     = [].
Proof.
  assert (Hbuf : rx_buffer (quiet_env (utf8_bytes "{oops" ++ [x0a])) <> [])
    by discriminate.
  destruct (read_data_malformed_line string demo_json_loads demo_link_up
              demo_port (quiet_env (utf8_bytes "{oops" ++ [x0a]))
              (utf8_bytes "{oops" ++ [x0a]) []
              eq_refl eq_refl eq_refl eq_refl eq_refl Hbuf eq_refl)
    as (_ & H3 & _ & _ & Hbad & _).
  destruct (Hbad JSONDecodeError
              (or_intror
                 (ex_intro _ (String.append "{oops" newline)
                    (conj eq_refl (conj eq_refl eq_refl)))))
    as (H1 & H2).
  split; [exact H1|]. split; [exact H2 | exact H3].
Defined.

(** C7, for every line that is not valid structured data, fails: a line of
    one space is not JSON (the decoder raises on what is left of it once
    stripped, the empty text), yet [read_data] returns None for it without
    logging anything: the trace holds the two port operations and no
    diagnostic. *)
Lemma read_data_blank_line_counterexample :
  demo_json_loads (str_strip (string_of_list_byte [x20; x0a]))
  = Raise JSONDecodeError
  /\ fst (SerialCommunication.read_data demo_json_loads demo_link_up
            (quiet_env [x20; x0a]))
     = Ok None
  /\ trace (snd (SerialCommunication.read_data demo_json_loads demo_link_up
                   (quiet_env [x20; x0a])))
     = [EvSerialInWaiting; EvSerialReadline]
  /\ trace (snd (SerialCommunication.read_data demo_json_loads demo_link_up
                   (quiet_env [x20; x0a])))
     <> [EvSerialInWaiting; EvSerialReadline;
         EvPrintExn "Error reading data: " JSONDecodeError].
Proof.
  split; [reflexivity|]. split; [reflexivity|]. split; [reflexivity|].
  discriminate.
Qed.

(** ** The presentation (C3, C4) *)

Lemma frame_delay_default :
  float_truediv_int 1 SlotMachineVideo.default_fps = Ok default_frame_delay.
Proof. vm_compute. reflexivity. Qed.

(** The loop over the frames only adds its events to the trace. *)
Lemma for_each_frame_run (frames : list Image) (delay : float) :
  forall env,
    SlotMachineVideo.for_each_frame frames delay env
    = (Ok tt, set_trace (trace env ++ frame_events frames delay) env).
Proof.
  induction frames as [|frame rest IH]; intros env.
  - cbn. unfold ret. now rewrite set_trace_same.
  - cbn [SlotMachineVideo.for_each_frame]. unfold bind, asyncio_sleep, emit.
    rewrite IH. f_equal. destruct env; unfold set_trace; cbn.
    now rewrite <- !app_assoc.
Qed.

Lemma play_animation_run (self : SlotMachineVideo.t) (frames : list Image)
  (env : Env) :
  SlotMachineVideo.play_animation self frames SlotMachineVideo.default_fps env
  = (Ok tt,
     set_trace (trace env ++ frame_events frames default_frame_delay) env).
Proof.
  destruct frames as [|frame rest].
  - cbn. unfold ret. now rewrite set_trace_same.
  - unfold SlotMachineVideo.play_animation.
    rewrite frame_delay_default. unfold bind, lift.
    apply for_each_frame_run.
Qed.

(** The bisection stays inside the interval it is given. *)
Lemma bisect_loop_bounds (a : list float) (x : float) (rounds : nat) :
  forall lo hi, lo <= hi -> lo <= bisect_loop rounds a x lo hi <= hi.
Proof.
  induction rounds as [|rounds IH]; intros lo hi Hle; cbn [bisect_loop].
  - lia.
  - destruct (Nat.ltb_spec lo hi) as [Hlt|Hge]; [|lia].
    assert (Hmid : lo <= (lo + hi) / 2 < hi).
    { split.
      - apply Nat.div_le_lower_bound; lia.
      - apply Nat.Div0.div_lt_upper_bound; lia. }
    destruct (x <? nth ((lo + hi) / 2) a nan)%float.
    + specialize (IH lo ((lo + hi) / 2)). lia.
    + specialize (IH (S ((lo + hi) / 2)) hi). lia.
Qed.

(** [hi - lo] rounds are enough: the loop has met its exit test by then, and
    further rounds change nothing. *)
Lemma bisect_loop_enough (a : list float) (x : float) (rounds : nat) :
  forall lo hi extra,
    hi - lo <= rounds ->
    bisect_loop (rounds + extra) a x lo hi = bisect_loop rounds a x lo hi.
Proof.
  induction rounds as [|rounds IH]; intros lo hi extra Hle.
  - cbn [Nat.add bisect_loop]. destruct extra; [reflexivity|].
    cbn [bisect_loop]. destruct (Nat.ltb_spec lo hi); [lia | reflexivity].
  - cbn [Nat.add bisect_loop].
    destruct (Nat.ltb_spec lo hi) as [Hlt|Hge]; [|reflexivity].
    assert (Hmid : lo <= (lo + hi) / 2 < hi).
    { split.
      - apply Nat.div_le_lower_bound; lia.
      - apply Nat.Div0.div_lt_upper_bound; lia. }
    destruct (x <? nth ((lo + hi) / 2) a nan)%float; apply IH; lia.
Qed.

Lemma bisect_bounds (a : list float) (x : float) (lo hi : nat) :
  lo <= hi -> lo <= bisect a x lo hi <= hi.
Proof. apply bisect_loop_bounds. Qed.

Lemma GAMBLE_CHANCES_positive :
  forall amount, In amount GAMBLE_CHANCES -> (0 < amount)%Z.
Proof.
  intros amount H. cbn in H.
  repeat (destruct H as [<-|H]; [lia|]). contradiction.
Qed.

Lemma table_draw_in_table (r : float) : In (table_draw r) GAMBLE_CHANCES.
Proof.
  unfold table_draw. apply nth_In.
  pose proof (bisect_bounds (accumulate GAMBLE_WEIGHTS) (r * weight_total) 0
                (List.length GAMBLE_CHANCES - 1) (Nat.le_0_l _)) as H.
  cbn [List.length GAMBLE_CHANCES Nat.sub] in *. lia.
Qed.

(** The payout draw never raises: it consumes one draw and returns the
    table's pick for it. *)
Lemma get_payout_run (env : Env) :
  get_payout env
  = (Ok (table_draw (random_value env (random_calls env))),
     set_random_calls (S (random_calls env))
       (set_trace (trace env ++ [EvRandom]) env)).
Proof.
  unfold get_payout, random_choices.
  change (negb (List.length (accumulate GAMBLE_WEIGHTS)
                =? List.length GAMBLE_CHANCES)%nat) with false.
  cbv iota.
  assert (Hrev : exists final front,
             rev (accumulate GAMBLE_WEIGHTS) = final :: front
             /\ ((final + 0) <=? 0)%float = false
             /\ is_finite (final + 0)%float = true
             /\ (final + 0)%float = weight_total).
  { eexists _, _. split; [vm_compute; reflexivity|].
    repeat split; vm_compute; reflexivity. }
  destruct Hrev as (final & front & -> & -> & -> & ->). cbn [negb].
  unfold bind at 1. unfold bind at 1. unfold random_random.
  unfold bind at 1. cbn [emit].
  cbn [random_value random_calls set_trace].
  pose proof (table_draw_in_table (random_value env (random_calls env))) as Hin.
  unfold table_draw in *.
  set (idx := bisect _ _ 0 _) in *.
  assert (Hidx : idx < List.length GAMBLE_CHANCES).
  { subst idx.
    pose proof (bisect_bounds (accumulate GAMBLE_WEIGHTS)
                  (random_value env (random_calls env) * weight_total) 0
                  (List.length GAMBLE_CHANCES - 1) (Nat.le_0_l _)) as H.
    cbn [List.length GAMBLE_CHANCES Nat.sub] in *. lia. }
  rewrite (nth_error_nth' GAMBLE_CHANCES 0%Z Hidx). reflexivity.
Qed.

(** [spin] in full: it never raises, leaves the events of the presentation
    in order and returns [spin_payout]. *)
Lemma spin_run (video_player : SlotMachineVideo.t) (env : Env) :
  spin video_player env
  = (Ok (spin_payout env),
     set_random_calls
       (if gate_opens env then S (S (random_calls env))
        else S (random_calls env))
       (set_trace
          (trace env ++ presentation_events video_player (gate_opens env))
          env)).
Proof.
  unfold spin, SlotMachineVideo.show_spin_animation,
    SlotMachineVideo.show_win_animation, SlotMachineVideo.show_lose_animation.
  unfold bind at 1. rewrite play_animation_run.
  unfold bind at 1. unfold random_random at 1. unfold bind at 1.
  cbn [emit]. unfold spin_payout, gate_opens, presentation_events.
  cbn [random_value random_calls set_trace set_random_calls trace].
  destruct (random_value env (random_calls env) <? 0.2)%float.
  - unfold bind at 1. rewrite play_animation_run, get_payout_run.
    f_equal. destruct env; cbn. now rewrite <- !app_assoc.
  - unfold bind at 1. rewrite play_animation_run.
    unfold ret. f_equal. destruct env; cbn. now rewrite <- !app_assoc.
Qed.

Lemma spin_payout_cases (env : Env) :
  if gate_opens env then In (spin_payout env) GAMBLE_CHANCES
  else spin_payout env = 0%Z.
Proof.
  unfold spin_payout. destruct (gate_opens env);
    [apply table_draw_in_table | reflexivity].
Qed.

(** What the bisection returns, on any list: the entry at the index found is
    above the key unless the index is the upper end, and the entry before it
    is not above the key unless the index is the lower end. *)
Lemma bisect_loop_found (a : list float) (x : float) (rounds : nat) :
  forall lo hi,
    lo <= hi -> hi - lo <= rounds ->
    let i := bisect_loop rounds a x lo hi in
    lo <= i <= hi
    /\ (i < hi -> (x <? nth i a nan)%float = true)
    /\ (lo < i -> (x <? nth (i - 1) a nan)%float = false).
Proof.
  induction rounds as [|rounds IH]; intros lo hi Hle Hfuel; cbn [bisect_loop].
  - cbv zeta. repeat split; lia.
  - destruct (Nat.ltb_spec lo hi) as [Hlt|Hge].
    + assert (Hmid : lo <= (lo + hi) / 2 < hi).
      { split.
        - apply Nat.div_le_lower_bound; lia.
        - apply Nat.Div0.div_lt_upper_bound; lia. }
      destruct (x <? nth ((lo + hi) / 2) a nan)%float eqn:Hcmp.
      * destruct (IH lo ((lo + hi) / 2)) as (Hb & Hup & Hdown); [lia|lia|].
        cbv zeta in *. split; [lia|]. split; [|exact Hdown].
        intros Hi.
        destruct (Nat.eq_dec (bisect_loop rounds a x lo ((lo + hi) / 2))
                    ((lo + hi) / 2)) as [->|Hne]; [exact Hcmp|].
        apply Hup. lia.
      * destruct (IH (S ((lo + hi) / 2)) hi) as (Hb & Hup & Hdown);
          [lia|lia|].
        cbv zeta in *. split; [lia|]. split; [exact Hup|].
        intros Hi.
        destruct (Nat.eq_dec (bisect_loop rounds a x (S ((lo + hi) / 2)) hi)
                    (S ((lo + hi) / 2))) as [->|Hne].
        -- cbn [Nat.sub]. now rewrite Nat.sub_0_r.
        -- apply Hdown. lia.
    + cbv zeta. repeat split; lia.
Qed.

(** The table's pick for a draw: the amount whose interval of cumulative
    weight holds the draw times the total weight. *)
Lemma table_draw_interval (r : float) :
  let x := (r * weight_total)%float in
  exists i,
    i < 8
    /\ table_draw r = nth i GAMBLE_CHANCES 0%Z
    /\ (i < 7 -> (x <? nth i (accumulate GAMBLE_WEIGHTS) nan)%float = true)
    /\ (0 < i ->
        (x <? nth (i - 1) (accumulate GAMBLE_WEIGHTS) nan)%float = false).
Proof.
  intros x. unfold table_draw. fold x.
  change (List.length GAMBLE_CHANCES - 1) with 7.
  destruct (bisect_loop_found (accumulate GAMBLE_WEIGHTS) x 7 0 7
              (Nat.le_0_l 7) (Nat.le_refl 7)) as (Hb & Hup & Hdown).
  exists (bisect (accumulate GAMBLE_WEIGHTS) x 0 7). unfold bisect.
  cbn [Nat.sub]. split; [lia|]. split; [reflexivity|].
  split; [exact Hup | exact Hdown].
Qed.

(** C3, as the code has it.  [spin] never raises and runs its steps to the
    end one after the other: the spin animation at the default frame delay,
    the draw of the win gate, then, when the gate opens, the win animation and
    only after it the draw of the payout, otherwise the lose animation; it
    returns the payout drawn (the table's pick for the draw that follows the
    gate's), 0 when the gate stays shut. *)
Theorem spin_steps_in_order :
  forall (video_player : SlotMachineVideo.t) (env : Env),
  exists payout env',
    spin video_player env = (Ok payout, env')
    /\ trace env'
       = trace env
         ++ frame_events (SlotMachineVideo.spin_frames video_player)
              default_frame_delay
         ++ [EvRandom]
         ++ (if gate_opens env then
               frame_events (SlotMachineVideo.win_frames video_player)
                 default_frame_delay
               ++ [EvRandom]
             else
               frame_events (SlotMachineVideo.lose_frames video_player)
                 default_frame_delay)
    /\ payout = spin_payout env
    /\ payout
       = (if gate_opens env
          then table_draw (random_value env (S (random_calls env)))
          else 0%Z)
    /\ random_calls env'
       = (if gate_opens env then S (S (random_calls env))
          else S (random_calls env))
    /\ (if gate_opens env then In payout GAMBLE_CHANCES else payout = 0%Z).
Proof.
  intros video_player env.
  eexists (spin_payout env), _. split; [apply spin_run|].
  split; [reflexivity|]. split; [reflexivity|]. split; [reflexivity|].
  split; [reflexivity|]. apply spin_payout_cases.
Qed.

(** C3, as the specification orders the steps (payout draw before the win
    animation), fails: with one frame per animation and a first draw of 0.1,
    [spin] shows the win frame between the two draws, the specified order
    shows it after both. *)
Lemma spin_order_counterexample :
  trace (snd (spin demo_player winning_env))
  = [EvDisplay (Frame "spin_000.png"); EvSleep default_frame_delay; EvRandom;
     EvDisplay (Frame "win_000.png"); EvSleep default_frame_delay; EvRandom]
  /\ trace (snd (spin_as_specified demo_player winning_env))
     = [EvDisplay (Frame "spin_000.png"); EvSleep default_frame_delay;
        EvRandom; EvRandom;
        EvDisplay (Frame "win_000.png"); EvSleep default_frame_delay]
  /\ spin demo_player winning_env <> spin_as_specified demo_player winning_env.
Proof.
  split; [vm_compute; reflexivity|]. split; [vm_compute; reflexivity|].
  intros H. apply (f_equal (fun out => trace (snd out))) in H.
  vm_compute in H. discriminate H.
Qed.

(** C4.  A turn's [spin] reads the next draw of the random source as its win
    gate.  When that draw is below 0.2 it takes one more draw and returns the
    table's pick for it: the amount of [GAMBLE_CHANCES] whose interval of
    cumulative weight, in the running sums of [GAMBLE_WEIGHTS], holds that
    draw times the total weight; the amount is positive.  Otherwise it takes
    no other draw and returns 0.  So the payout is never negative, and it is
    positive exactly when the gate opened. *)
Theorem spin_payout_outcome :
  forall (video_player : SlotMachineVideo.t) (env : Env),
  exists payout env',
    spin video_player env = (Ok payout, env')
    /\ gate_opens env
       = (random_value env (random_calls env) <? 0.2)%float
    /\ payout = spin_payout env
    /\ (gate_opens env = true ->
        (let x := (random_value env (S (random_calls env))
                   * weight_total)%float in
         exists i,
           i < 8
           /\ payout = nth i GAMBLE_CHANCES 0%Z
           /\ (i < 7 ->
               (x <? nth i (accumulate GAMBLE_WEIGHTS) nan)%float = true)
           /\ (0 < i ->
               (x <? nth (i - 1) (accumulate GAMBLE_WEIGHTS) nan)%float
               = false))
        /\ payout = table_draw (random_value env (S (random_calls env)))
        /\ In payout GAMBLE_CHANCES /\ (0 < payout)%Z
        /\ random_calls env' = S (S (random_calls env)))
    /\ (gate_opens env = false ->
        payout = 0%Z /\ random_calls env' = S (random_calls env))
    /\ (0 <= payout)%Z
    /\ ((0 < payout)%Z <-> gate_opens env = true)
    /\ accumulate GAMBLE_WEIGHTS
       = [0.5; 1.5; 2; 2.3999999999999999; 2.75; 2.8500000000000001;
          2.8599999999999999; 2.8609999999999998]%float
    /\ weight_total = 2.8609999999999998%float.
Proof.
  intros video_player env.
  eexists (spin_payout env), _. split; [apply spin_run|].
  split; [reflexivity|]. split; [reflexivity|].
  cbn [random_calls set_random_calls].
  assert (Hsums : accumulate GAMBLE_WEIGHTS
                  = [0.5; 1.5; 2; 2.3999999999999999; 2.75;
                     2.8500000000000001; 2.8599999999999999;
                     2.8609999999999998]%float
                  /\ weight_total = 2.8609999999999998%float)
    by (split; vm_compute; reflexivity).
  cut ((gate_opens env = true ->
        (let x := (random_value env (S (random_calls env))
                   * weight_total)%float in
         exists i,
           i < 8
           /\ spin_payout env = nth i GAMBLE_CHANCES 0%Z
           /\ (i < 7 ->
               (x <? nth i (accumulate GAMBLE_WEIGHTS) nan)%float = true)
           /\ (0 < i ->
               (x <? nth (i - 1) (accumulate GAMBLE_WEIGHTS) nan)%float
               = false))
        /\ spin_payout env
           = table_draw (random_value env (S (random_calls env)))
        /\ In (spin_payout env) GAMBLE_CHANCES /\ (0 < spin_payout env)%Z
        /\ (if gate_opens env then S (S (random_calls env))
            else S (random_calls env)) = S (S (random_calls env)))
       /\ (gate_opens env = false ->
           spin_payout env = 0%Z
           /\ (if gate_opens env then S (S (random_calls env))
               else S (random_calls env)) = S (random_calls env))
       /\ (0 <= spin_payout env)%Z
       /\ ((0 < spin_payout env)%Z <-> gate_opens env = true)).
  { intros (H1 & H2 & H3 & H4). destruct Hsums as (H5 & H6).
    split; [exact H1|]. split; [exact H2|]. split; [exact H3|].
    split; [exact H4|]. split; [exact H5 | exact H6]. }
  clear Hsums.
  pose proof (spin_payout_cases env) as Hcases.
  unfold spin_payout in *.
  destruct (gate_opens env).
  - pose proof (GAMBLE_CHANCES_positive _ Hcases) as Hpos.
    split; [|split; [discriminate|split; [lia|tauto]]].
    intros _. split; [apply table_draw_interval|]. repeat split; auto.
  - split; [discriminate|]. split; [auto|]. split; [lia|].
    split; [lia | discriminate].
Qed.

(** ** The game turn (C2) *)

Lemma serial_writes_app (tr1 tr2 : list event) :
  serial_writes (tr1 ++ tr2) = serial_writes tr1 ++ serial_writes tr2.
Proof. apply flat_map_app. Qed.

Lemma serial_writes_frame_events (frames : list Image) (delay : float) :
  serial_writes (frame_events frames delay) = [].
Proof. induction frames as [|frame rest IH]; [reflexivity | exact IH]. Qed.

(** The presentation writes nothing to the port. *)
Lemma serial_writes_presentation (video_player : SlotMachineVideo.t)
  (won : bool) :
  serial_writes (presentation_events video_player won) = [].
Proof.
  unfold presentation_events. destruct won;
    rewrite !serial_writes_app, !serial_writes_frame_events; reflexivity.
Qed.

(** [send_data] of a text that encodes, on a link that is up, whatever the
    port does: one call of [write], with the line; the draws and the fault
    script are left alone.  When the port takes the write and the flush,
    nothing else happens and the line is on the wire. *)
Lemma send_data_link_up (self : SerialCommunication.t) (c : Serial.t)
  (data : string) (env : Env) :
  SerialCommunication.connected self = true ->
  SerialCommunication.connection self = Some c ->
  Serial.is_open c = true ->
  utf8_wellformed (utf8_bytes data) = true ->
  exists sent events env',
    SerialCommunication.send_data self data env = (Ok sent, env')
    /\ trace env' = trace env ++ events
    /\ serial_writes events = [utf8_bytes data ++ [x0a]]
    /\ random_value env' = random_value env
    /\ random_calls env' = random_calls env
    /\ io_error env' = io_error env
    /\ (io_error env (io_calls env) = None ->
        io_error env (S (io_calls env)) = None ->
        events = [EvSerialWrite (utf8_bytes data ++ [x0a]); EvSerialFlush]
        /\ wire env'
           = wire env ++ tx_pending env ++ utf8_bytes data ++ [x0a]
        /\ tx_pending env' = []
        /\ io_calls env' = S (S (io_calls env))).
Proof.
  intros Hconn Hc Hopen Henc.
  destruct (io_error env (io_calls env)) as [e1|] eqn:Hw;
    [|destruct (io_error env (S (io_calls env))) as [e2|] eqn:Hf].
  - exists false, [EvSerialWrite (utf8_bytes data ++ [x0a]);
                   EvPrintExn "Error sending data: " e1].
    eexists. split.
    + unfold SerialCommunication.send_data. rewrite Hconn, Hc.
      cbn [negb orb SerialCommunication.truthy].
      unfold try_except, Serial.write. rewrite Hopen, encode_utf8_line, Henc.
      unfold bind, lift. rewrite io_attempt_run, Hw. reflexivity.
    + cbn. rewrite <- !app_assoc. repeat split; discriminate.
  - exists false, [EvSerialWrite (utf8_bytes data ++ [x0a]); EvSerialFlush;
                   EvPrintExn "Error sending data: " e2].
    eexists. split.
    + unfold SerialCommunication.send_data. rewrite Hconn, Hc.
      cbn [negb orb SerialCommunication.truthy].
      unfold try_except, Serial.write, Serial.flush.
      rewrite Hopen, encode_utf8_line, Henc.
      unfold bind, lift. rewrite !io_attempt_run, Hw. cbn. rewrite Hf.
      reflexivity.
    + cbn. rewrite <- !app_assoc. repeat split; discriminate.
  - exists true, [EvSerialWrite (utf8_bytes data ++ [x0a]); EvSerialFlush].
    eexists. split.
    + now apply (send_data_run self c data env).
    + cbn. repeat split.
Qed.

Lemma gamble_notice_text :
  ("GAMBLE " ++ str_of_int GAMBLE_AMT)%string = "GAMBLE 200"%string.
Proof. reflexivity. Qed.

(** The report line of a presentation encodes: it is "LOSE" or "WIN " and
    the digits of an amount of the table. *)
Lemma outcome_line_encodes (env : Env) :
  utf8_wellformed (utf8_bytes (outcome_line (spin_payout env))) = true.
Proof.
  pose proof (spin_payout_cases env) as Hcases.
  destruct (gate_opens env).
  - cbn in Hcases.
    repeat (destruct Hcases as [<-|Hcases]; [reflexivity|]). contradiction.
  - now rewrite Hcases.
Qed.

(** One turn on a link that is up, whatever the port does. *)
Lemma turn_run (g : Globals) (c : Serial.t) (env : Env) :
  SerialCommunication.connected (serial_comm g) = true ->
  SerialCommunication.connection (serial_comm g) = Some c ->
  Serial.is_open c = true ->
  exists notice report env',
    turn g env = (Ok tt, env')
    /\ trace env'
       = trace env ++ notice
         ++ presentation_events (video_player g) (gate_opens env)
         ++ report ++ [EvSleep 1]
    /\ serial_writes notice = [wire_line "GAMBLE 200"]
    /\ serial_writes report = [wire_line (outcome_line (spin_payout env))]
    /\ ((forall k, k < 4 -> io_error env (io_calls env + k) = None) ->
        notice = [EvPrint "Spin button pressed! Starting spin...";
                  EvSerialWrite (wire_line "GAMBLE 200"); EvSerialFlush;
                  EvPrint "Sent: GAMBLE 200"]
        /\ report = [EvSerialWrite (wire_line (outcome_line (spin_payout env)));
                     EvSerialFlush;
                     EvPrint (report_message (spin_payout env))]
        /\ wire env'
           = wire env ++ tx_pending env ++ wire_line "GAMBLE 200"
             ++ wire_line (outcome_line (spin_payout env))
        /\ tx_pending env' = []).
Proof.
  intros Hconn Hc Hopen. unfold turn.
  unfold bind at 1. unfold print at 1, emit at 1. cbv beta iota.
  set (env1 := set_trace _ env).
  destruct (send_data_link_up (serial_comm g) c
              ("GAMBLE " ++ str_of_int GAMBLE_AMT)%string env1
              Hconn Hc Hopen eq_refl)
    as (sent1 & ev1 & env2 & Hrun1 & Htr1 & Hw1 & Hrv1 & Hrc1 & Hio1 & Hok1).
  unfold bind at 1. rewrite Hrun1.
  unfold bind at 1. unfold print at 1, emit at 1. cbv beta iota.
  set (env3 := set_trace _ env2).
  unfold bind at 1. rewrite spin_run.
  assert (Hgate : gate_opens env3 = gate_opens env).
  { unfold gate_opens. subst env3; cbn. now rewrite Hrv1, Hrc1. }
  assert (Hpay : spin_payout env3 = spin_payout env).
  { unfold spin_payout. rewrite Hgate. subst env3; cbn.
    now rewrite Hrv1, Hrc1. }
  rewrite Hgate, Hpay.
  set (env4 := set_random_calls _ _).
  set (payout := spin_payout env).
  assert (Hsend2 : exists sent2 ev2 env5,
             (if (0 <? payout)%Z then
                SerialCommunication.send_data (serial_comm g)
                  ("WIN " ++ str_of_int payout)%string ;;
                print ("Sent: WIN " ++ str_of_int payout ++ " - Won payout: "
                       ++ str_of_int payout)%string
              else
                SerialCommunication.send_data (serial_comm g) "LOSE" ;;
                print "Sent: LOSE - No payout") env4
             = (Ok tt,
                set_trace (trace env5 ++ [EvPrint (report_message payout)])
                  env5)
             /\ SerialCommunication.send_data (serial_comm g)
                  (outcome_line payout) env4 = (Ok sent2, env5)
             /\ trace env5 = trace env4 ++ ev2
             /\ serial_writes ev2 = [wire_line (outcome_line payout)]
             /\ (io_error env4 (io_calls env4) = None ->
                 io_error env4 (S (io_calls env4)) = None ->
                 ev2 = [EvSerialWrite (wire_line (outcome_line payout));
                        EvSerialFlush]
                 /\ wire env5
                    = wire env4 ++ tx_pending env4
                      ++ wire_line (outcome_line payout)
                 /\ tx_pending env5 = [])).
  { destruct (send_data_link_up (serial_comm g) c (outcome_line payout) env4
                Hconn Hc Hopen (outcome_line_encodes env))
      as (sent2 & ev2 & env5 & Hrun2 & Htr2 & Hw2 & _ & _ & _ & Hok2).
    exists sent2, ev2, env5. split; [|split; [exact Hrun2|]].
    - unfold outcome_line, report_message in *.
      destruct (0 <? payout)%Z; unfold bind; rewrite Hrun2; reflexivity.
    - split; [exact Htr2|]. split; [exact Hw2|].
      intros H1 H2. destruct (Hok2 H1 H2) as (E1 & E2 & E3 & _). auto. }
  destruct Hsend2 as (sent2 & ev2 & env5 & Hrun2 & _ & Htr2 & Hw2 & Hok2).
  unfold bind at 1. rewrite Hrun2.
  exists ([EvPrint "Spin button pressed! Starting spin..."] ++ ev1
          ++ [EvPrint "Sent: GAMBLE 200"]),
         (ev2 ++ [EvPrint (report_message payout)]).
  eexists. split; [reflexivity|].
  split; [|split; [|split]].
  - cbn [asyncio_sleep emit snd trace set_trace]. rewrite Htr2.
    subst env4; cbn [trace set_random_calls set_trace].
    subst env3; cbn [trace set_trace]. rewrite Htr1.
    subst env1; cbn [trace set_trace].
    rewrite <- !app_assoc. reflexivity.
  - rewrite !serial_writes_app, Hw1. reflexivity.
  - rewrite serial_writes_app, Hw2. reflexivity.
  - intros Hquiet.
    assert (Hq : forall k, k < 4 -> io_error env1 (io_calls env1 + k) = None).
    { intros k Hk. subst env1; cbn. now apply Hquiet. }
    destruct Hok1 as (E1 & Hwire1 & Hpend1 & Hcalls1).
    { rewrite <- (Nat.add_0_r (io_calls env1)). apply Hq; lia. }
    { rewrite <- Nat.add_1_r. apply Hq; lia. }
    destruct Hok2 as (E2 & Hwire2 & Hpend2).
    { subst env4 env3; cbn. rewrite Hio1, Hcalls1.
      replace (S (S (io_calls env1))) with (io_calls env1 + 2) by lia.
      apply Hq; lia. }
    { subst env4 env3; cbn. rewrite Hio1, Hcalls1.
      replace (S (S (S (io_calls env1)))) with (io_calls env1 + 3) by lia.
      apply Hq; lia. }
    subst ev1 ev2. split; [reflexivity|]. split; [reflexivity|].
    cbn [asyncio_sleep emit snd wire tx_pending set_trace].
    rewrite Hwire2, Hpend2. split; [|reflexivity].
    subst env4 env3; cbn. rewrite Hwire1, Hpend1. subst env1; cbn.
    unfold wire_line. rewrite <- !app_assoc. reflexivity.
Qed.

(** A round whose poll sees no rising edge polls, sleeps 50 ms and sends
    nothing. *)
Lemma idle_round_sends_nothing (g : Globals) (env : Env) :
  sample env 0 && negb (Button.last_state (spin_button g)) = false ->
  exists g' env',
    handle_button_presses_round g env = (Ok g', env')
    /\ trace env'
       = trace env ++ [EvGpioInput (Button.pin (spin_button g)); EvSleep 0.05]
    /\ serial_comm g' = serial_comm g
    /\ wire env' = wire env.
Proof.
  intros Hidle. unfold handle_button_presses_round.
  unfold bind at 1. rewrite was_just_pressed_run, Hidle.
  eexists _, _. split; [reflexivity|]. cbn.
  rewrite <- !app_assoc. repeat split.
Qed.

(** A turn returns whatever the link and the port do: a failed send is
    reported by [send_data] itself and the turn goes on. *)
Lemma turn_returns (g : Globals) (env : Env) :
  exists env', turn g env = (Ok tt, env').
Proof.
  unfold turn.
  unfold bind at 1. unfold print at 1, emit at 1. cbv beta iota.
  unfold bind at 1.
  match goal with |- context [SerialCommunication.send_data ?sc ?d ?e] =>
    destruct (send_data_returns sc d e) as (sent1 & env2 & Hrun1) end.
  rewrite Hrun1.
  unfold bind at 1. unfold print at 1, emit at 1. cbv beta iota.
  unfold bind at 1. rewrite spin_run.
  unfold bind at 1.
  destruct (0 <? spin_payout _)%Z; unfold bind at 1;
    match goal with |- context [SerialCommunication.send_data ?sc ?d ?e] =>
      destruct (send_data_returns sc d e) as (sent2 & env3 & Hrun2) end;
    rewrite Hrun2; eexists; reflexivity.
Qed.

(** Every round of the loop returns and leaves the link object and the
    player alone; only the button changes. *)
Lemma handle_button_presses_round_returns (g : Globals) (env : Env) :
  exists button env',
    handle_button_presses_round g env
    = (Ok (mkGlobals (video_player g) (serial_comm g) button), env').
Proof.
  unfold handle_button_presses_round.
  unfold bind at 1. rewrite was_just_pressed_run.
  destruct (sample env 0 && negb (Button.last_state (spin_button g))).
  - unfold bind at 1.
    match goal with |- context [turn ?g1 ?e] =>
      destruct (turn_returns g1 e) as (env2 & Hrun) end.
    rewrite Hrun. eexists _, _. reflexivity.
  - eexists _, _. reflexivity.
Qed.

(** Once [connect] has returned True the link is up ([connect_run]), and the
    loop never gives the link object up: after any number of rounds it is the
    object the loop started with. *)
Lemma handle_button_presses_keeps_link (rounds : nat) :
  forall (g : Globals) (env : Env),
  exists g' env',
    handle_button_presses rounds g env = (Ok g', env')
    /\ serial_comm g' = serial_comm g
    /\ video_player g' = video_player g.
Proof.
  induction rounds as [|rounds IH]; intros g env; cbn [handle_button_presses].
  - eexists _, _. repeat split.
  - destruct (handle_button_presses_round_returns g env)
      as (button & env1 & Hrun).
    unfold bind. rewrite Hrun.
    destruct (IH (mkGlobals (video_player g) (serial_comm g) button) env1)
      as (g' & env' & Hrest & Hlink & Hplayer).
    exists g', env'. auto.
Qed.

(** C2.  On a link that is up, a round of the loop whose poll sees a rising
    edge plays one turn and returns.  Its events are, in order: the poll; the
    notice part, in which [write] is called once, with "GAMBLE 200" and a
    newline; the presentation, in which nothing is written; the report part,
    in which [write] is called once, with "WIN <payout>" and a newline when
    the gate opened (the payout is then positive) and "LOSE" and a newline
    otherwise; the one-second cooldown and the 50 ms poll delay.  So the
    round calls [write] exactly twice, and never after the report.  When the
    port takes the four operations, exactly these two lines reach the wire
    and nothing stays pending. *)
Theorem turn_sends_two_lines :
  forall (g : Globals) (c : Serial.t) (env : Env),
    SerialCommunication.connected (serial_comm g) = true ->
    SerialCommunication.connection (serial_comm g) = Some c ->
    Serial.is_open c = true ->
    sample env 0 = true ->
    Button.last_state (spin_button g) = false ->
    let payout := spin_payout env in
    exists notice report env',
      handle_button_presses_round g env
      = (Ok (mkGlobals (video_player g) (serial_comm g)
               (Button.mk (Button.pin (spin_button g)) true)), env')
      /\ trace env'
         = trace env ++ [EvGpioInput (Button.pin (spin_button g))] ++ notice
           ++ presentation_events (video_player g) (gate_opens env)
           ++ report ++ [EvSleep 1; EvSleep 0.05]
      /\ serial_writes notice = [wire_line "GAMBLE 200"]
      /\ serial_writes (presentation_events (video_player g) (gate_opens env))
         = []
      /\ serial_writes report = [wire_line (outcome_line payout)]
      /\ outcome_line payout
         = (if gate_opens env then ("WIN " ++ str_of_int payout)%string
            else "LOSE"%string)
      /\ ((0 < payout)%Z <-> gate_opens env = true)
      /\ serial_writes (trace env')
         = serial_writes (trace env)
           ++ [wire_line "GAMBLE 200"; wire_line (outcome_line payout)]
      /\ ((forall k, k < 4 -> io_error env (io_calls env + k) = None) ->
          notice = [EvPrint "Spin button pressed! Starting spin...";
                    EvSerialWrite (wire_line "GAMBLE 200"); EvSerialFlush;
                    EvPrint "Sent: GAMBLE 200"]
          /\ report = [EvSerialWrite (wire_line (outcome_line payout));
                       EvSerialFlush; EvPrint (report_message payout)]
          /\ wire env'
             = wire env ++ tx_pending env ++ wire_line "GAMBLE 200"
               ++ wire_line (outcome_line payout)
          /\ tx_pending env' = []).
Proof.
  intros g c env Hconn Hc Hopen Hpressed Hlast payout.
  unfold handle_button_presses_round.
  unfold bind at 1. rewrite was_just_pressed_run, Hpressed, Hlast.
  cbn [andb negb].
  set (env1 := set_gpio_reads _ _).
  set (g1 := mkGlobals _ _ _).
  destruct (turn_run g1 c env1 Hconn Hc Hopen)
    as (notice & report & env2 & Hrun & Htr & Hw1 & Hw2 & Hquiet).
  assert (Hgate : gate_opens env1 = gate_opens env) by reflexivity.
  assert (Hpay : spin_payout env1 = payout) by reflexivity.
  rewrite Hgate, Hpay in *.
  unfold bind at 1. rewrite Hrun.
  exists notice, report. eexists. split; [reflexivity|].
  assert (Htrace :
            trace env2
            = trace env ++ [EvGpioInput (Button.pin (spin_button g))]
              ++ notice
              ++ presentation_events (video_player g) (gate_opens env)
              ++ report ++ [EvSleep 1]).
  { rewrite Htr. subst env1 g1; cbn. now rewrite <- !app_assoc. }
  pose proof (spin_payout_cases env) as Hcases. fold payout in Hcases.
  split; [|split; [exact Hw1|split; [apply serial_writes_presentation|
           split; [exact Hw2|split; [|split; [|split]]]]]].
  - cbn [asyncio_sleep emit snd trace set_trace]. rewrite Htrace.
    rewrite <- !app_assoc. reflexivity.
  - unfold outcome_line. destruct (gate_opens env).
    + apply GAMBLE_CHANCES_positive in Hcases.
      now apply Z.ltb_lt in Hcases as ->.
    + now rewrite Hcases.
  - destruct (gate_opens env).
    + apply GAMBLE_CHANCES_positive in Hcases. tauto.
    + rewrite Hcases. split; [lia | discriminate].
  - cbn [asyncio_sleep emit snd trace set_trace]. rewrite Htrace.
    rewrite !serial_writes_app, Hw1, Hw2, serial_writes_presentation.
    cbn. now rewrite app_nil_r.
  - intros Hq. destruct Hquiet as (E1 & E2 & Hwire & Hpend).
    { intros k Hk. subst env1; cbn. now apply Hq. }
    split; [exact E1|]. split; [exact E2|].
    cbn [asyncio_sleep emit snd wire tx_pending set_trace].
    split; [|exact Hpend]. rewrite Hwire. reflexivity.
Qed.

(** The scenario of the specification: the link is up, the button is
    pressed, the draw loses.  The wire carries "GAMBLE 200" then "LOSE", each
    with its newline, and the trace ends with the two delays.  With a
    winning first draw and 0.999 as the second, the report is "WIN 10000". *)
Lemma turn_sends_two_lines_witness :
  (exists env',
     snd (handle_button_presses_round demo_globals losing_env) = env'
     /\ serial_writes (trace env') = [wire_line "GAMBLE 200"; wire_line "LOSE"]
     /\ wire env' = wire_line "GAMBLE 200" ++ wire_line "LOSE")
  /\ (exists env',
        snd (handle_button_presses_round demo_globals winning_env) = env'
        /\ serial_writes (trace env')
           = [wire_line "GAMBLE 200"; wire_line "WIN 10000"]
        /\ wire env' = wire_line "GAMBLE 200" ++ wire_line "WIN 10000").
Proof.
  split.
  - destruct (turn_sends_two_lines demo_globals demo_port losing_env
                eq_refl eq_refl eq_refl eq_refl eq_refl)
      as (notice & report & env' & Hrun & _ & _ & _ & _ & _ & _ & Hw & Hq).
    exists env'. split; [now rewrite Hrun|]. split; [exact Hw|].
    destruct (Hq (fun k _ => eq_refl)) as (_ & _ & Hwire & _). exact Hwire.
  - destruct (turn_sends_two_lines demo_globals demo_port winning_env
                eq_refl eq_refl eq_refl eq_refl eq_refl)
      as (notice & report & env' & Hrun & _ & _ & _ & _ & _ & _ & Hw & Hq).
    exists env'. split; [now rewrite Hrun|]. split; [exact Hw|].
    destruct (Hq (fun k _ => eq_refl)) as (_ & _ & Hwire & _). exact Hwire.
Defined.

(** * Further properties of the code *)

(** ** The link: [connect], [disconnect], [send_data] *)

Lemma perform_keeps_port_open {json : Type}
  (json_loads : string -> result json) (op : operation)
  (self : SerialCommunication.t) (env : Env) :
  (SerialCommunication.connected self = true -> link_up self) ->
  exists self' env',
    perform json_loads op self env = (Ok self', env')
    /\ (SerialCommunication.connected self' = true -> link_up self').
Proof.
  intros Hinv. destruct op as [| |data|]; cbn [perform].
  - destruct (connect_run self env)
      as (ok & self' & env' & Hrun & Hflag & Hup & _).
    unfold bind. rewrite Hrun. eexists _, _. split; [reflexivity|].
    intros H. apply Hup. congruence.
  - unfold try_except.
    destruct (SerialCommunication.disconnect self env)
      as [[self'|e] env'] eqn:Hrun.
    + eexists _, _. split; [reflexivity|].
      destruct (disconnect_run self env self' env' Hrun) as [->|Hdown];
        [exact Hinv|].
      intros H. congruence.
    + eexists _, _. split; [reflexivity | exact Hinv].
  - destruct (send_data_returns self data env) as (sent & env' & Hrun).
    unfold bind. rewrite Hrun. eexists _, _. split; [reflexivity | exact Hinv].
  - destruct (read_data_returns json_loads self env) as (msg & env' & Hrun).
    unfold bind. rewrite Hrun. eexists _, _. split; [reflexivity | exact Hinv].
Qed.

(** X1.  From a new link object, after any sequence of [connect],
    [disconnect], [send_data] and [read_data] in any environment: when the
    flag is raised the port object is there and open, so [send_data] of a text
    that encodes gets as far as calling [write], with the line. *)
Theorem raised_flag_means_open_port :
  forall (json : Type) (json_loads : string -> result json)
         (port : string) (baud : Z) (timeout : float)
         (ops : list operation) (env : Env),
  exists self env',
    perform_all json_loads ops
      (SerialCommunication.__init__ port baud timeout) env = (Ok self, env')
    /\ (SerialCommunication.connected self = true ->
        (exists c, SerialCommunication.connection self = Some c
                   /\ Serial.is_open c = true)
        /\ forall data env1,
             utf8_wellformed (utf8_bytes data) = true ->
             serial_writes
               (trace (snd (SerialCommunication.send_data self data env1)))
             = serial_writes (trace env1) ++ [wire_line data]).
Proof.
  intros json json_loads port baud timeout ops.
  assert (Hall : forall self env,
             (SerialCommunication.connected self = true -> link_up self) ->
             exists self' env',
               perform_all json_loads ops self env = (Ok self', env')
               /\ (SerialCommunication.connected self' = true ->
                   link_up self')).
  { induction ops as [|op ops IH]; intros self env Hinv; cbn [perform_all].
    - eexists _, _. split; [reflexivity | exact Hinv].
    - destruct (perform_keeps_port_open json_loads op self env Hinv)
        as (self1 & env1 & Hrun & Hinv1).
      unfold bind. rewrite Hrun. now apply IH. }
  intros env.
  destruct (Hall (SerialCommunication.__init__ port baud timeout) env)
    as (self & env' & Hrun & Hinv).
  { intros H; discriminate H. }
  exists self, env'. split; [exact Hrun|].
  intros Hflag. destruct (Hinv Hflag) as (_ & c & Hc & Hopen).
  split; [eauto|]. intros data env1 Henc.
  destruct (send_data_link_up self c data env1 Hflag Hc Hopen Henc)
    as (sent & events & env2 & Hsend & Htr & Hw & _).
  rewrite Hsend. cbn [snd]. rewrite Htr, serial_writes_app, Hw. reflexivity.
Qed.



(** X3.  [disconnect] on an object whose port is open closes it, lowers the
    flag and says so, whether the flag was raised or not; a second
    [disconnect] then does nothing at all, and neither does [disconnect] on an
    object that never had a port. *)
Theorem disconnect_closes_once :
  forall (self : SerialCommunication.t) (c : Serial.t) (env : Env),
    SerialCommunication.connection self = Some c ->
    Serial.is_open c = true ->
    io_error env (io_calls env) = None ->
    exists self' env',
      SerialCommunication.disconnect self env = (Ok self', env')
      /\ SerialCommunication.connected self' = false
      /\ SerialCommunication.connection self'
         = Some (Serial.mk (Serial.port c) (Serial.baudrate c)
                   (Serial.timeout c) false)
      /\ trace env'
         = trace env ++ [EvSerialClose; EvPrint "Serial connection closed"]
      /\ (forall env1,
            SerialCommunication.disconnect self' env1 = (Ok self', env1))
      /\ (forall port baud timeout env1,
            SerialCommunication.disconnect
              (SerialCommunication.__init__ port baud timeout) env1
            = (Ok (SerialCommunication.__init__ port baud timeout), env1)).
Proof.
  intros self c env Hc Hopen Hio.
  unfold SerialCommunication.disconnect at 1. rewrite Hc, Hopen.
  unfold Serial.close. rewrite Hopen.
  unfold bind at 1. unfold bind at 1. rewrite io_attempt_run, Hio.
  eexists _, _. split; [reflexivity|]. cbn.
  rewrite <- ?app_assoc. repeat split.
Qed.

Lemma disconnect_closes_once_witness :
  exists self' env',
    SerialCommunication.disconnect demo_link_up (quiet_env [])
    = (Ok self', env')
    /\ SerialCommunication.connected self' = false
    /\ SerialCommunication.disconnect self' env' = (Ok self', env').
Proof.
  destruct (disconnect_closes_once demo_link_up demo_port (quiet_env [])
              eq_refl eq_refl eq_refl)
    as (self' & env' & H1 & H2 & _ & _ & H3 & _).
  exists self', env'. split; [exact H1|]. split; [exact H2 | apply H3].
Defined.

(** X4.  On a link that is up, [send_data] returns True exactly when the
    text encodes as UTF-8 and the port took both the write and the flush.
    When the text does not encode the port is not used at all.  When the
    write raises, the flush is not attempted: the call is followed by the
    diagnostic only, and nothing is queued or put on the wire. *)
Theorem send_data_true_iff_port_took_it :
  forall (self : SerialCommunication.t) (c : Serial.t) (data : string)
         (env : Env),
    SerialCommunication.connected self = true ->
    SerialCommunication.connection self = Some c ->
    Serial.is_open c = true ->
    (fst (SerialCommunication.send_data self data env) = Ok true
     <-> utf8_wellformed (utf8_bytes data) = true
         /\ io_error env (io_calls env) = None
         /\ io_error env (S (io_calls env)) = None)
    /\ (utf8_wellformed (utf8_bytes data) = false ->
        SerialCommunication.send_data self data env
        = (Ok false,
           set_trace
             (trace env
              ++ [EvPrintExn "Error sending data: " UnicodeEncodeError])
             env))
    /\ (forall e,
          utf8_wellformed (utf8_bytes data) = true ->
          io_error env (io_calls env) = Some e ->
          SerialCommunication.send_data self data env
          = (Ok false,
             set_io_calls (S (io_calls env))
               (set_trace
                  (trace env
                   ++ [EvSerialWrite (wire_line data);
                       EvPrintExn "Error sending data: " e])
                  env))).
Proof.
  intros self c data env Hconn Hc Hopen.
  destruct (utf8_wellformed (utf8_bytes data)) eqn:Henc.
  2:{ rewrite (send_data_unencodable_run self c data env Hconn Hc Henc).
      split; [|split; [reflexivity | discriminate]].
      cbn. split; [discriminate | intros [H _]; discriminate H]. }
  assert (Hrun : SerialCommunication.send_data self data env
                 = try_except
                     (Serial.write c (utf8_bytes data ++ [x0a]) ;;
                      Serial.flush c ;; ret true)
                     (fun e => print_exn "Error sending data: " e ;; ret false)
                     env).
  { unfold SerialCommunication.send_data. rewrite Hconn, Hc.
    cbn [negb orb SerialCommunication.truthy].
    unfold try_except. rewrite encode_utf8_line, Henc. reflexivity. }
  rewrite Hrun. unfold try_except, Serial.write, Serial.flush.
  rewrite Hopen. unfold bind. rewrite !io_attempt_run.
  destruct (io_error env (io_calls env)) as [e1|] eqn:Hw.
  - split; [|split; [discriminate|]].
    + cbn. split; [discriminate | intros (_ & H & _); discriminate H].
    + intros e _ He. injection He as <-. cbn. unfold wire_line.
      f_equal. destruct env; cbn. now rewrite <- ?app_assoc.
  - cbn. destruct (io_error env (S (io_calls env))) as [e2|] eqn:Hf.
    + split; [|split; discriminate].
      cbn. split; [discriminate | intros (_ & _ & H); discriminate H].
    + split; [|split; discriminate]. cbn. split; auto.
Qed.

Lemma send_data_true_iff_port_took_it_witness :
  fst (SerialCommunication.send_data demo_link_up "LOSE"
         (failing_first_env 1 []))
  <> Ok true
  /\ wire (snd (SerialCommunication.send_data demo_link_up "LOSE"
                  (failing_first_env 1 []))) = []
  /\ fst (SerialCommunication.send_data demo_link_up surrogate_line
            (quiet_env []))
     <> Ok true.
Proof.
  destruct (send_data_true_iff_port_took_it demo_link_up demo_port "LOSE"
              (failing_first_env 1 []) eq_refl eq_refl eq_refl)
    as (Hiff & _ & Hfail).
  destruct (send_data_true_iff_port_took_it demo_link_up demo_port
              surrogate_line (quiet_env []) eq_refl eq_refl eq_refl)
    as (Hiff' & _ & _).
  split; [|split].
  - intros H. apply Hiff in H. destruct H as (_ & H & _). discriminate H.
  - rewrite (Hfail SerialException eq_refl eq_refl). reflexivity.
  - intros H. apply Hiff' in H. destruct H as (H & _). discriminate H.
Defined.

(** ** The link: [read_data] *)

(** X5.  On a link that is up, with the port answering, a buffered line that
    [json.loads] decodes is returned as decoded: the line is read once and
    taken off the buffer, the rest of the buffer stays, and nothing is
    printed. *)
Theorem read_data_returns_decoded_line :
  forall (json : Type) (json_loads : string -> result json)
         (self : SerialCommunication.t) (c : Serial.t) (env : Env)
         (raw rest : list byte) (text : string) (v : json),
    SerialCommunication.connected self = true ->
    SerialCommunication.connection self = Some c ->
    Serial.is_open c = true ->
    io_error env (io_calls env) = None ->
    io_error env (S (io_calls env)) = None ->
    rx_buffer env <> [] ->
    split_line (rx_buffer env) = (raw, rest) ->
    decode_utf8 raw = Ok text ->
    str_truthy (str_strip text) = true ->
    json_loads (str_strip text) = Ok v ->
    let after := snd (SerialCommunication.read_data json_loads self env) in
    fst (SerialCommunication.read_data json_loads self env) = Ok (Some v)
    /\ trace after = trace env ++ [EvSerialInWaiting; EvSerialReadline]
    /\ rx_buffer after = rest
    /\ raw ++ rest = rx_buffer env.
Proof.
  intros json json_loads self c env raw rest text v
         Hconn Hc Hopen Hio1 Hio2 Hbuf Hsplit Hdec Htruthy Hjson after.
  subst after.
  rewrite (read_data_line_run json_loads self c env raw rest
             Hconn Hc Hopen Hio1 Hio2 Hbuf Hsplit).
  rewrite Hdec, Htruthy, Hjson. cbn. repeat split.
  clear - Hsplit. revert raw rest Hsplit.
  induction (rx_buffer env) as [|b bs IH]; intros raw rest Hsplit.
  - injection Hsplit as <- <-. reflexivity.
  - cbn in Hsplit. destruct (Byte.eqb b x0a).
    + injection Hsplit as <- <-. reflexivity.
    + destruct (split_line bs) as [line rest'].
      injection Hsplit as <- <-. cbn. f_equal. now apply IH.
Qed.

(** The buffered line "{}" is returned by the stand-in decoder, and what
    follows it stays buffered. *)
Lemma read_data_returns_decoded_line_witness :
  fst (SerialCommunication.read_data demo_json_loads demo_link_up
         (quiet_env (wire_line "{}" ++ wire_line "{oops")))
  = Ok (Some "{}"%string)
  /\ rx_buffer (snd (SerialCommunication.read_data demo_json_loads
                       demo_link_up
                       (quiet_env (wire_line "{}" ++ wire_line "{oops"))))
     = wire_line "{oops".
Proof.
  assert (Hbuf : rx_buffer (quiet_env (wire_line "{}" ++ wire_line "{oops"))
                 <> []) by discriminate.
  destruct (read_data_returns_decoded_line string demo_json_loads demo_link_up
              demo_port (quiet_env (wire_line "{}" ++ wire_line "{oops"))
              (wire_line "{}") (wire_line "{oops")
              (String.append "{}" newline) "{}"%string
              eq_refl eq_refl eq_refl eq_refl eq_refl Hbuf
              eq_refl eq_refl eq_refl eq_refl)
    as (H1 & _ & H2 & _).
  split; [exact H1 | exact H2].
Defined.

(** X6.  With nothing buffered [read_data] returns None after asking for the
    buffered count: it does not call [readline], so it never waits for the
    read timeout, and it prints nothing. *)
Theorem read_data_nothing_buffered :
  forall (json : Type) (json_loads : string -> result json)
         (self : SerialCommunication.t) (c : Serial.t) (env : Env),
    SerialCommunication.connected self = true ->
    SerialCommunication.connection self = Some c ->
    Serial.is_open c = true ->
    io_error env (io_calls env) = None ->
    rx_buffer env = [] ->
    SerialCommunication.read_data json_loads self env
    = (Ok None,
       set_io_calls (S (io_calls env))
         (set_trace (trace env ++ [EvSerialInWaiting]) env)).
Proof.
  intros json json_loads self c env Hconn Hc Hopen Hio Hbuf.
  unfold SerialCommunication.read_data. rewrite Hconn, Hc.
  cbn [negb orb SerialCommunication.truthy].
  unfold try_except, Serial.in_waiting. rewrite Hopen.
  unfold bind. rewrite io_attempt_run. cbn. rewrite Hio, Hbuf. reflexivity.
Qed.

Lemma read_data_nothing_buffered_witness :
  SerialCommunication.read_data demo_json_loads demo_link_up (quiet_env [])
  = (Ok None,
     set_io_calls 1 (set_trace [EvSerialInWaiting] (quiet_env []))).
Proof.
  exact (read_data_nothing_buffered string demo_json_loads demo_link_up
           demo_port (quiet_env []) eq_refl eq_refl eq_refl eq_refl eq_refl).
Defined.

(** X7.  A buffered line that is blank once stripped (only whitespace, or a
    bare newline) is taken off the buffer and gives None without a
    diagnostic; [json.loads] has no say in it, the result is the same for
    every decoder. *)
Theorem read_data_skips_blank_line :
  forall (json : Type) (json_loads : string -> result json)
         (self : SerialCommunication.t) (c : Serial.t) (env : Env)
         (raw rest : list byte) (text : string),
    SerialCommunication.connected self = true ->
    SerialCommunication.connection self = Some c ->
    Serial.is_open c = true ->
    io_error env (io_calls env) = None ->
    io_error env (S (io_calls env)) = None ->
    rx_buffer env <> [] ->
    split_line (rx_buffer env) = (raw, rest) ->
    decode_utf8 raw = Ok text ->
    str_strip text = EmptyString ->
    SerialCommunication.read_data json_loads self env
    = (Ok None,
       set_line (tx_pending env) (wire env) rest
         (set_io_calls (S (S (io_calls env)))
            (set_trace (trace env ++ [EvSerialInWaiting; EvSerialReadline])
               env))).
Proof.
  intros json json_loads self c env raw rest text
         Hconn Hc Hopen Hio1 Hio2 Hbuf Hsplit Hdec Hblank.
  rewrite (read_data_line_run json_loads self c env raw rest
             Hconn Hc Hopen Hio1 Hio2 Hbuf Hsplit).
  rewrite Hdec, Hblank. reflexivity.
Qed.

(** A line of a space, a tab and a carriage return before its newline. *)
Lemma read_data_skips_blank_line_witness :
  fst (SerialCommunication.read_data demo_json_loads demo_link_up
         (quiet_env ([x20; x09; x0d; x0a] ++ wire_line "{}")))
  = Ok None
  /\ rx_buffer (snd (SerialCommunication.read_data demo_json_loads
                       demo_link_up
                       (quiet_env ([x20; x09; x0d; x0a] ++ wire_line "{}"))))
     = wire_line "{}".
Proof.
  assert (Hbuf : rx_buffer (quiet_env ([x20; x09; x0d; x0a] ++ wire_line "{}"))
                 <> []) by discriminate.
  rewrite (read_data_skips_blank_line string demo_json_loads demo_link_up
             demo_port (quiet_env ([x20; x09; x0d; x0a] ++ wire_line "{}"))
             [x20; x09; x0d; x0a] (wire_line "{}")
             (string_of_list_byte [x20; x09; x0d; x0a])
             eq_refl eq_refl eq_refl eq_refl eq_refl Hbuf
             eq_refl eq_refl eq_refl).
  split; reflexivity.
Defined.

(** With the flag down or without a port object [read_data] returns
    None and does nothing: no operation on the port, nothing read, nothing
    printed (unlike [send_data], which prints a diagnostic). *)
Theorem read_data_not_connected :
  forall (json : Type) (json_loads : string -> result json)
         (self : SerialCommunication.t) (env : Env),
    SerialCommunication.connected self = false
    \/ SerialCommunication.connection self = None ->
    SerialCommunication.read_data json_loads self env = (Ok None, env).
Proof.
  intros json json_loads self env H.
  unfold SerialCommunication.read_data.
  destruct H as [H|H]; rewrite H; [reflexivity|].
  now rewrite orb_true_r.
Qed.

Lemma read_data_not_connected_witness :
  SerialCommunication.read_data demo_json_loads demo_link_down
    (quiet_env (wire_line "{}"))
  = (Ok None, quiet_env (wire_line "{}")).
Proof.
  exact (read_data_not_connected string demo_json_loads demo_link_down
           (quiet_env (wire_line "{}")) (or_introl eq_refl)).
Defined.

(** X8.  Whatever goes wrong inside [read_data] on a link that is up is
    reported and swallowed: when asking for the buffered count raises, the
    result is None after the diagnostic, nothing is read and the buffer is
    left as it is; when the line is not UTF-8, the result is None after the
    diagnostic and the line is gone. *)
Theorem read_data_reports_errors :
  forall (json : Type) (json_loads : string -> result json)
         (self : SerialCommunication.t) (c : Serial.t) (env : Env),
    SerialCommunication.connected self = true ->
    SerialCommunication.connection self = Some c ->
    Serial.is_open c = true ->
    (forall e,
       io_error env (io_calls env) = Some e ->
       SerialCommunication.read_data json_loads self env
       = (Ok None,
          set_io_calls (S (io_calls env))
            (set_trace
               (trace env
                ++ [EvSerialInWaiting; EvPrintExn "Error reading data: " e])
               env)))
    /\ (forall raw rest,
          io_error env (io_calls env) = None ->
          io_error env (S (io_calls env)) = None ->
          rx_buffer env <> [] ->
          split_line (rx_buffer env) = (raw, rest) ->
          utf8_wellformed raw = false ->
          fst (SerialCommunication.read_data json_loads self env) = Ok None
          /\ trace (snd (SerialCommunication.read_data json_loads self env))
             = trace env
               ++ [EvSerialInWaiting; EvSerialReadline;
                   EvPrintExn "Error reading data: " UnicodeDecodeError]
          /\ rx_buffer (snd (SerialCommunication.read_data json_loads self env))
             = rest).
Proof.
  intros json json_loads self c env Hconn Hc Hopen. split.
  - intros e Hio.
    unfold SerialCommunication.read_data. rewrite Hconn, Hc.
    cbn [negb orb SerialCommunication.truthy].
    unfold try_except, Serial.in_waiting. rewrite Hopen.
    unfold bind. rewrite io_attempt_run. cbn. rewrite Hio. cbn.
    f_equal. destruct env; cbn. now rewrite <- ?app_assoc.
  - intros raw rest Hio1 Hio2 Hbuf Hsplit Hbad.
    rewrite (read_data_line_run json_loads self c env raw rest
               Hconn Hc Hopen Hio1 Hio2 Hbuf Hsplit).
    unfold decode_utf8. rewrite Hbad. cbn.
    rewrite <- ?app_assoc. repeat split.
Qed.

(** A lone continuation byte is not UTF-8. *)
Lemma read_data_reports_errors_witness :
  fst (SerialCommunication.read_data demo_json_loads demo_link_up
         (failing_first_env 1 (wire_line "{}")))
  = Ok None
  /\ rx_buffer (snd (SerialCommunication.read_data demo_json_loads
                       demo_link_up (failing_first_env 1 (wire_line "{}"))))
     = wire_line "{}"
  /\ fst (SerialCommunication.read_data demo_json_loads demo_link_up
            (quiet_env [x80; x0a]))
     = Ok None.
Proof.
  destruct (read_data_reports_errors string demo_json_loads demo_link_up
              demo_port (failing_first_env 1 (wire_line "{}"))
              eq_refl eq_refl eq_refl) as (Hport & _).
  destruct (read_data_reports_errors string demo_json_loads demo_link_up
              demo_port (quiet_env [x80; x0a])
              eq_refl eq_refl eq_refl) as (_ & Hutf).
  assert (Hbuf : rx_buffer (quiet_env [x80; x0a]) <> []) by discriminate.
  destruct (Hutf [x80; x0a] [] eq_refl eq_refl Hbuf eq_refl eq_refl)
    as (H3 & _).
  rewrite (Hport SerialException eq_refl).
  split; [reflexivity|]. split; [reflexivity | exact H3].
Defined.

(** ** The link: several calls in a row *)

Lemma split_line_at_newline (line more : list byte) :
  ~ In x0a line ->
  split_line (line ++ x0a :: more) = (line ++ [x0a], more).
Proof.
  induction line as [|b line IH]; intros Hno; cbn.
  - reflexivity.
  - destruct (Byte.eqb b x0a) eqn:Hb.
    + exfalso. apply Hno. left. symmetry.
      now apply Byte.byte_dec_bl in Hb.
    + rewrite IH; [reflexivity|]. intros H. apply Hno. now right.
Qed.

(** X9.  Lines come out of [read_data] in the order they came in, one per
    call: with two lines buffered, two calls return the value of the first,
    then the value of the second, and leave what follows them. *)
Theorem read_data_lines_in_order :
  forall (json : Type) (json_loads : string -> result json)
         (self : SerialCommunication.t) (c : Serial.t) (env : Env)
         (line1 line2 more : list byte) (text1 text2 : string) (v1 v2 : json),
    SerialCommunication.connected self = true ->
    SerialCommunication.connection self = Some c ->
    Serial.is_open c = true ->
    (forall k, k < 4 -> io_error env (io_calls env + k) = None) ->
    rx_buffer env = line1 ++ x0a :: line2 ++ x0a :: more ->
    ~ In x0a line1 ->
    ~ In x0a line2 ->
    decode_utf8 (line1 ++ [x0a]) = Ok text1 ->
    str_truthy (str_strip text1) = true ->
    json_loads (str_strip text1) = Ok v1 ->
    decode_utf8 (line2 ++ [x0a]) = Ok text2 ->
    str_truthy (str_strip text2) = true ->
    json_loads (str_strip text2) = Ok v2 ->
    exists env',
      (first <- SerialCommunication.read_data json_loads self ;;
       second <- SerialCommunication.read_data json_loads self ;;
       ret (first, second)) env
      = (Ok (Some v1, Some v2), env')
      /\ rx_buffer env' = more
      /\ trace env'
         = trace env ++ [EvSerialInWaiting; EvSerialReadline;
                         EvSerialInWaiting; EvSerialReadline].
Proof.
  intros json json_loads self c env line1 line2 more text1 text2 v1 v2
         Hconn Hc Hopen Hquiet Hbuf Hno1 Hno2
         Hdec1 Htruthy1 Hjson1 Hdec2 Htruthy2 Hjson2.
  unfold bind at 1.
  rewrite (read_data_line_run json_loads self c env (line1 ++ [x0a])
             (line2 ++ x0a :: more) Hconn Hc Hopen).
  - rewrite Hdec1, Htruthy1, Hjson1.
    set (env1 := set_line _ _ _ _).
    unfold bind at 1.
    rewrite (read_data_line_run json_loads self c env1 (line2 ++ [x0a])
               more Hconn Hc Hopen).
    + rewrite Hdec2, Htruthy2, Hjson2. eexists. split; [reflexivity|].
      subst env1; cbn. rewrite <- ?app_assoc. split; reflexivity.
    + subst env1; cbn.
      replace (S (S (io_calls env))) with (io_calls env + 2) by lia.
      apply Hquiet; lia.
    + subst env1; cbn.
      replace (S (S (S (io_calls env)))) with (io_calls env + 3) by lia.
      apply Hquiet; lia.
    + subst env1; cbn. destruct line2; discriminate.
    + subst env1; cbn. now apply split_line_at_newline.
  - rewrite <- (Nat.add_0_r (io_calls env)). apply Hquiet; lia.
  - rewrite <- Nat.add_1_r. apply Hquiet; lia.
  - rewrite Hbuf. destruct line1; discriminate.
  - rewrite Hbuf. now apply split_line_at_newline.
Qed.

Lemma read_data_lines_in_order_witness :
  exists env',
    (first <- SerialCommunication.read_data demo_json_loads demo_link_up ;;
     second <- SerialCommunication.read_data demo_json_loads demo_link_up ;;
     ret (first, second))
      (quiet_env (utf8_bytes "{}" ++ x0a :: utf8_bytes " {} " ++ x0a :: []))
    = (Ok (Some "{}"%string, Some "{}"%string), env')
    /\ rx_buffer env' = [].
Proof.
  destruct (read_data_lines_in_order string demo_json_loads demo_link_up
              demo_port
              (quiet_env
                 (utf8_bytes "{}" ++ x0a :: utf8_bytes " {} " ++ x0a :: []))
              (utf8_bytes "{}") (utf8_bytes " {} ") []
              (String.append "{}" newline) (String.append " {} " newline)
              "{}"%string "{}"%string
              eq_refl eq_refl eq_refl (fun k _ => eq_refl) eq_refl)
    as (env' & H1 & H2 & _);
    try reflexivity;
    try (cbn; intros H; repeat (destruct H as [H|H]; [discriminate H|]);
         exact H).
  exists env'. split; [exact H1 | exact H2].
Defined.

(** X10.  Lines that encode as UTF-8, sent one after the other on a link
    that is up through a port that takes every operation, reach the wire in
    the order of the calls, each followed by its newline, and every call
    returns True. *)
Theorem send_all_in_order :
  forall (self : SerialCommunication.t) (c : Serial.t) (lines : list string)
         (env : Env),
    SerialCommunication.connected self = true ->
    SerialCommunication.connection self = Some c ->
    Serial.is_open c = true ->
    Forall (fun line => utf8_wellformed (utf8_bytes line) = true) lines ->
    (forall k, k < 2 * List.length lines ->
               io_error env (io_calls env + k) = None) ->
    tx_pending env = [] ->
    exists env',
      send_all self lines env = (Ok (map (fun _ => true) lines), env')
      /\ wire env' = wire env ++ List.concat (map wire_line lines)
      /\ tx_pending env' = []
      /\ serial_writes (trace env')
         = serial_writes (trace env) ++ map wire_line lines.
Proof.
  intros self c lines env Hconn Hc Hopen Henc. revert env.
  induction Henc as [|line rest Hline Hrest IH]; intros env Hquiet Hpend.
  - exists env. cbn. rewrite !app_nil_r. repeat split. exact Hpend.
  - cbn [send_all]. unfold bind at 1.
    rewrite (send_data_run self c line env Hconn Hc Hopen Hline).
    + set (env1 := set_line _ _ _ _).
      destruct (IH env1) as (env' & Hrun & Hwire & Hpend' & Hwrites).
      * intros k Hk. subst env1; cbn.
        replace (S (S (io_calls env + k))) with (io_calls env + (2 + k))
          by lia.
        apply Hquiet. cbn [List.length]. lia.
      * reflexivity.
      * unfold bind at 1. rewrite Hrun. exists env'.
        split; [reflexivity|]. split; [|split; [exact Hpend'|]].
        -- rewrite Hwire. subst env1; cbn. rewrite Hpend. cbn.
           unfold wire_line. now rewrite <- !app_assoc.
        -- rewrite Hwrites. subst env1; cbn.
           rewrite serial_writes_app. cbn. unfold wire_line.
           now rewrite <- !app_assoc.
    + rewrite <- (Nat.add_0_r (io_calls env)). apply Hquiet.
      cbn [List.length]. lia.
    + rewrite <- Nat.add_1_r. apply Hquiet. cbn [List.length]. lia.
Qed.

Lemma send_all_in_order_witness :
  exists env',
    send_all demo_link_up ["GAMBLE 200"; "LOSE"]%string (quiet_env [])
    = (Ok [true; true], env')
    /\ wire env' = wire_line "GAMBLE 200" ++ wire_line "LOSE".
Proof.
  assert (Henc : Forall (fun line => utf8_wellformed (utf8_bytes line) = true)
                   ["GAMBLE 200"; "LOSE"]%string)
    by (repeat constructor).
  destruct (send_all_in_order demo_link_up demo_port
              ["GAMBLE 200"; "LOSE"]%string (quiet_env [])
              eq_refl eq_refl eq_refl Henc (fun k _ => eq_refl) eq_refl)
    as (env' & H1 & H2 & _).
  exists env'. split; [exact H1 | exact H2].
Defined.

(** ** Animations: [play_animation], [load_frames] *)

Lemma displayed_frame_events (frames : list Image) (delay : float) :
  displayed (frame_events frames delay) = frames.
Proof.
  induction frames as [|frame rest IH]; [reflexivity|].
  cbn. f_equal. exact IH.
Qed.

Lemma sleeps_frame_events (frames : list Image) (delay : float) :
  sleeps (frame_events frames delay) = repeat delay (List.length frames).
Proof.
  induction frames as [|frame rest IH]; [reflexivity|].
  cbn. f_equal. exact IH.
Qed.

(** X11.  At a frame rate whose delay [1.0 / fps] can be computed,
    [play_animation] shows every frame once, in the order of the sequence,
    holds each one for that delay before going on, and does nothing else; at
    the default rate of 10 the delay is 0.1 s. *)
Theorem play_animation_shows_frames :
  forall (self : SlotMachineVideo.t) (frames : list Image) (fps : Z)
         (delay : float) (env : Env),
    float_truediv_int 1 fps = Ok delay ->
    let after := snd (SlotMachineVideo.play_animation self frames fps env) in
    SlotMachineVideo.play_animation self frames fps env
    = (Ok tt, set_trace (trace env ++ frame_events frames delay) env)
    /\ displayed (trace after) = displayed (trace env) ++ frames
    /\ sleeps (trace after)
       = sleeps (trace env) ++ repeat delay (List.length frames)
    /\ float_truediv_int 1 SlotMachineVideo.default_fps = Ok 0.1%float.
Proof.
  intros self frames fps delay env Hdelay after. subst after.
  assert (Hrun : SlotMachineVideo.play_animation self frames fps env
                 = (Ok tt,
                    set_trace (trace env ++ frame_events frames delay) env)).
  { destruct frames as [|frame rest].
    - cbn. unfold ret. now rewrite set_trace_same.
    - unfold SlotMachineVideo.play_animation. rewrite Hdelay.
      unfold bind, lift. apply for_each_frame_run. }
  rewrite Hrun. split; [reflexivity|]. cbn [snd trace set_trace].
  unfold displayed, sleeps. rewrite !flat_map_app.
  fold (displayed (frame_events frames delay)).
  fold (sleeps (frame_events frames delay)).
  rewrite displayed_frame_events, sleeps_frame_events.
  split; [reflexivity|]. split; [reflexivity|]. exact frame_delay_default.
Qed.

(** Two frames at 4 frames per second: each is held for a quarter of a
    second. *)
Lemma play_animation_shows_frames_witness :
  SlotMachineVideo.play_animation demo_player
    [Frame "a.png"; Frame "b.png"] 4 (quiet_env [])
  = (Ok tt,
     set_trace
       [EvDisplay (Frame "a.png"); EvSleep 0.25;
        EvDisplay (Frame "b.png"); EvSleep 0.25] (quiet_env [])).
Proof.
  destruct (play_animation_shows_frames demo_player
              [Frame "a.png"; Frame "b.png"] 4 0.25%float (quiet_env [])
              eq_refl) as (H & _).
  exact H.
Defined.

(** X12.  When the delay cannot be computed, a sequence that has frames is
    not played at all: the error of the division comes out of
    [play_animation] before the first frame is shown.  A frame rate of 0 is
    such a case, with [ZeroDivisionError]. *)
Theorem play_animation_bad_rate :
  forall (self : SlotMachineVideo.t) (frame : Image) (rest : list Image)
         (fps : Z) (e : exn) (env : Env),
    float_truediv_int 1 fps = Raise e ->
    SlotMachineVideo.play_animation self (frame :: rest) fps env
    = (Raise e, env)
    /\ float_truediv_int 1 0 = Raise ZeroDivisionError.
Proof.
  intros self frame rest fps e env Hdelay.
  unfold SlotMachineVideo.play_animation. rewrite Hdelay.
  split; reflexivity.
Qed.

Lemma play_animation_bad_rate_witness :
  SlotMachineVideo.play_animation demo_player [Frame "a.png"] 0 (quiet_env [])
  = (Raise ZeroDivisionError, quiet_env []).
Proof.
  destruct (play_animation_bad_rate demo_player (Frame "a.png") [] 0
              ZeroDivisionError (quiet_env []) eq_refl) as (H & _).
  exact H.
Defined.










(** The three matches of the example directory are loaded in name order,
    without the one that does not open. *)
Lemma load_frames_example :
  SlotMachineVideo.load_frames demo_exists demo_glob demo_open_error
    demo_player "letsgo_frames" (quiet_env [])
  = (Ok [Frame "letsgo_frames/frame_000.png";
         Frame "letsgo_frames/frame_002.png"],
     set_trace
       [EvPrintExn "Error loading letsgo_frames/frame_001.png: " OSError]
       (quiet_env [])).
Proof. reflexivity. Qed.

(** ** The presentation and the payout draw *)

Lemma random_draws_app (tr1 tr2 : list event) :
  random_draws (tr1 ++ tr2) = random_draws tr1 + random_draws tr2.
Proof. unfold random_draws. now rewrite filter_app, length_app. Qed.

Lemma random_draws_frame_events (frames : list Image) (delay : float) :
  random_draws (frame_events frames delay) = 0.
Proof. induction frames as [|frame rest IH]; [reflexivity | exact IH]. Qed.

Lemma displayed_app (tr1 tr2 : list event) :
  displayed (tr1 ++ tr2) = displayed tr1 ++ displayed tr2.
Proof. apply flat_map_app. Qed.

(** X14.  [spin] only shows frames and draws random values.  It shows the
    spin frames, then all the win frames when the gate opens and all the lose
    frames when it does not, never both; it draws twice on a win and once on
    a loss; it leaves the serial line, the port and the button alone. *)
Theorem spin_only_shows_and_draws :
  forall (video_player : SlotMachineVideo.t) (env : Env),
    let after := snd (spin video_player env) in
    displayed (trace after)
    = displayed (trace env)
      ++ SlotMachineVideo.spin_frames video_player
      ++ (if gate_opens env then SlotMachineVideo.win_frames video_player
          else SlotMachineVideo.lose_frames video_player)
    /\ random_draws (trace after)
       = random_draws (trace env) + (if gate_opens env then 2 else 1)
    /\ serial_writes (trace after) = serial_writes (trace env)
    /\ wire after = wire env
    /\ tx_pending after = tx_pending env
    /\ rx_buffer after = rx_buffer env
    /\ io_calls after = io_calls env
    /\ gpio_reads after = gpio_reads env.
Proof.
  intros video_player env after. subst after. rewrite spin_run.
  cbn [snd trace set_trace set_random_calls wire tx_pending rx_buffer
       io_calls gpio_reads].
  rewrite displayed_app, random_draws_app, serial_writes_app,
    serial_writes_presentation, app_nil_r.
  unfold presentation_events.
  split; [|split; [|repeat split]].
  - f_equal. destruct (gate_opens env);
      rewrite !displayed_app, !displayed_frame_events; cbn;
      now rewrite ?app_nil_r.
  - f_equal. destruct (gate_opens env);
      rewrite !random_draws_app, !random_draws_frame_events; reflexivity.
Qed.

(** X15.  [get_payout] never raises and pays the amount whose interval of
    cumulative weight holds the scaled draw: with [x] the draw times the
    total weight, it returns the i-th amount of [GAMBLE_CHANCES] where the
    i-th running sum of [GAMBLE_WEIGHTS] is above [x] (unless i is the last
    index) and the one before it is not (unless i is 0).  The running sums
    are those of binary64 addition. *)
Theorem get_payout_interval :
  forall (env : Env),
    let x := (random_value env (random_calls env) * weight_total)%float in
    let cum := accumulate GAMBLE_WEIGHTS in
    exists i,
      i < 8
      /\ fst (get_payout env) = Ok (nth i GAMBLE_CHANCES 0%Z)
      /\ (i < 7 -> (x <? nth i cum nan)%float = true)
      /\ (0 < i -> (x <? nth (i - 1) cum nan)%float = false)
      /\ cum = [0.5; 1.5; 2; 2.3999999999999999; 2.75; 2.8500000000000001;
                2.8599999999999999; 2.8609999999999998]%float
      /\ weight_total = 2.8609999999999998%float.
Proof.
  intros env x cum. rewrite get_payout_run. cbn [fst]. unfold table_draw.
  fold x. fold cum. change (List.length GAMBLE_CHANCES - 1) with 7.
  destruct (bisect_loop_found cum x 7 0 7 (Nat.le_0_l 7) (Nat.le_refl 7))
    as (Hb & Hup & Hdown).
  exists (bisect cum x 0 7). unfold bisect. cbn [Nat.sub].
  split; [lia|]. split; [reflexivity|]. split; [exact Hup|].
  split; [exact Hdown|]. split; vm_compute; reflexivity.
Qed.

(** ** [main]: waiting for the link *)

Lemma connect_failure_run (self : SerialCommunication.t) (e : exn)
  (env : Env) :
  io_error env (io_calls env) = Some e ->
  exists diagnostic,
    SerialCommunication.connect self env
    = (Ok (false, SerialCommunication.set_connected false self),
       set_trace
         (trace env
          ++ [EvSerialOpen (SerialCommunication.port self)
                (SerialCommunication.baud self)
                (SerialCommunication.timeout self);
              EvPrintExn diagnostic e])
         (set_io_calls (S (io_calls env)) env)).
Proof.
  intros Hfail.
  unfold SerialCommunication.connect, try_except, Serial.__init__.
  unfold bind at 1. unfold bind at 1. rewrite io_attempt_run, Hfail.
  destruct (is_SerialException e); eexists; cbn; f_equal;
    destruct env; cbn; now rewrite <- ?app_assoc.
Qed.

Lemma connect_success_run (self : SerialCommunication.t) (env : Env) :
  io_error env (io_calls env) = None ->
  exists env',
    SerialCommunication.connect self env
    = (Ok (true,
           SerialCommunication.mk (SerialCommunication.port self)
             (SerialCommunication.baud self)
             (SerialCommunication.timeout self)
             (Some (Serial.mk (SerialCommunication.port self)
                      (SerialCommunication.baud self)
                      (SerialCommunication.timeout self) true))
             true), env')
    /\ io_calls env' = S (io_calls env)
    /\ io_error env' = io_error env
    /\ sleeps (trace env') = sleeps (trace env)
    /\ serial_writes (trace env') = serial_writes (trace env).
Proof.
  intros Hok.
  unfold SerialCommunication.connect, try_except, Serial.__init__.
  unfold bind at 1. unfold bind at 1. rewrite io_attempt_run, Hok.
  eexists. split; [reflexivity|]. cbn.
  unfold sleeps, serial_writes. rewrite <- ?app_assoc, !flat_map_app. cbn.
  rewrite !app_nil_r. repeat split.
Qed.

(** X16.  The connect loop of [main] stops at the first call of [connect]
    that succeeds: when the port refuses to open [k] times and then opens,
    the loop has called [connect] k+1 times, has slept 0.5 s after each of the
    k failures and not after the success, has written nothing, and hands over
    a link that is up. *)
Theorem main_connect_loop_connects :
  forall (k attempts : nat) (serial_comm : SerialCommunication.t) (env : Env),
    (forall j, j < k -> io_error env (io_calls env + j) <> None) ->
    io_error env (io_calls env + k) = None ->
    k < attempts ->
    exists serial_comm' env',
      main_connect_loop attempts serial_comm env = (Ok (Some serial_comm'), env')
      /\ link_up serial_comm'
      /\ io_calls env' = io_calls env + S k
      /\ sleeps (trace env') = sleeps (trace env) ++ repeat 0.5%float k
      /\ serial_writes (trace env') = serial_writes (trace env).
Proof.
  induction k as [|k IH]; intros attempts serial_comm env Hfail Hok Hlt.
  - destruct attempts as [|attempts]; [lia|]. cbn [main_connect_loop].
    rewrite Nat.add_0_r in Hok.
    destruct (connect_success_run serial_comm env Hok)
      as (env' & Hrun & Hcalls & _ & Hsl & Hw).
    unfold bind. rewrite Hrun. eexists _, env'. split; [reflexivity|].
    split; [|split; [lia|split; [now rewrite app_nil_r | exact Hw]]].
    split; [reflexivity|]. eexists. split; reflexivity.
  - destruct attempts as [|attempts]; [lia|]. cbn [main_connect_loop].
    destruct (io_error env (io_calls env)) as [e|] eqn:Hfirst.
    2:{ exfalso. apply (Hfail 0); [lia|]. now rewrite Nat.add_0_r. }
    destruct (connect_failure_run serial_comm e env Hfirst)
      as (diagnostic & Hrun).
    unfold bind at 1. rewrite Hrun.
    unfold bind at 1. unfold asyncio_sleep at 1, emit at 1.
    set (env1 := set_trace _ (set_trace _ _)).
    destruct (IH attempts (SerialCommunication.set_connected false serial_comm)
                env1) as (sc' & env' & Hloop & Hup & Hcalls & Hsl & Hw).
    + intros j Hj. subst env1; cbn.
      replace (S (io_calls env + j)) with (io_calls env + S j) by lia.
      apply Hfail. lia.
    + subst env1; cbn.
      replace (S (io_calls env + k)) with (io_calls env + S k) by lia.
      exact Hok.
    + lia.
    + exists sc', env'. split; [exact Hloop|]. split; [exact Hup|].
      split; [|split].
      * rewrite Hcalls. subst env1; cbn. lia.
      * rewrite Hsl. subst env1; cbn. unfold sleeps.
        rewrite !flat_map_app. cbn. now rewrite <- !app_assoc.
      * rewrite Hw. subst env1; cbn. unfold serial_writes.
        rewrite !flat_map_app. cbn. now rewrite !app_nil_r.
Qed.

(** The port refuses twice and opens on the third call. *)
Lemma main_connect_loop_connects_witness :
  exists serial_comm' env',
    main_connect_loop 5 demo_link_down (failing_first_env 2 [])
    = (Ok (Some serial_comm'), env')
    /\ link_up serial_comm'
    /\ sleeps (trace env') = [0.5; 0.5]%float.
Proof.
  destruct (main_connect_loop_connects 2 5 demo_link_down
              (failing_first_env 2 []))
    as (sc' & env' & H1 & H2 & _ & H3 & _).
  - intros j Hj. destruct j as [|[|j]]; [discriminate|discriminate|lia].
  - reflexivity.
  - lia.
  - exists sc', env'. split; [exact H1|]. split; [exact H2 | exact H3].
Defined.

(** X17.  While the port cannot be opened the connect loop of [main] does
    not give up and does nothing but try: after any number of calls of
    [connect] it is still in the loop, it has slept 0.5 s after each call, and
    it has not polled the button, drawn a random value, shown a frame or
    written to the port. *)
Theorem main_connect_loop_keeps_trying :
  forall (attempts : nat) (serial_comm : SerialCommunication.t) (env : Env),
    (forall j, io_error env (io_calls env + j) <> None) ->
    exists env',
      main_connect_loop attempts serial_comm env = (Ok None, env')
      /\ sleeps (trace env') = sleeps (trace env) ++ repeat 0.5%float attempts
      /\ io_calls env' = io_calls env + attempts
      /\ gpio_reads env' = gpio_reads env
      /\ random_calls env' = random_calls env
      /\ displayed (trace env') = displayed (trace env)
      /\ serial_writes (trace env') = serial_writes (trace env).
Proof.
  induction attempts as [|attempts IH]; intros serial_comm env Hfail.
  - exists env. cbn. rewrite app_nil_r, Nat.add_0_r. repeat split.
  - cbn [main_connect_loop].
    destruct (io_error env (io_calls env)) as [e|] eqn:Hfirst.
    2:{ exfalso. apply (Hfail 0). now rewrite Nat.add_0_r. }
    destruct (connect_failure_run serial_comm e env Hfirst)
      as (diagnostic & Hrun).
    unfold bind at 1. rewrite Hrun.
    unfold bind at 1. unfold asyncio_sleep at 1, emit at 1.
    set (env1 := set_trace _ (set_trace _ _)).
    destruct (IH (SerialCommunication.set_connected false serial_comm) env1)
      as (env' & Hloop & Hsl & Hcalls & Hgpio & Hrand & Hdisp & Hw).
    + intros j. subst env1; cbn.
      replace (S (io_calls env + j)) with (io_calls env + S j) by lia.
      apply Hfail.
    + exists env'. split; [exact Hloop|].
      rewrite Hsl, Hcalls, Hgpio, Hrand, Hdisp, Hw. subst env1; cbn.
      unfold sleeps, displayed, serial_writes. rewrite !flat_map_app. cbn.
      rewrite <- !app_assoc, !app_nil_r. repeat split. lia.
Qed.

Lemma main_connect_loop_keeps_trying_witness :
  exists env',
    main_connect_loop 3 demo_link_down dead_port_env = (Ok None, env')
    /\ sleeps (trace env') = [0.5; 0.5; 0.5]%float.
Proof.
  destruct (main_connect_loop_keeps_trying 3 demo_link_down dead_port_env)
    as (env' & H1 & H2 & _).
  - intros j. discriminate.
  - exists env'. split; [exact H1 | exact H2].
Defined.

(** ** The polling loop over several rounds *)

(** [send_data] never reads the button. *)
Lemma send_data_keeps_gpio (self : SerialCommunication.t) (data : string)
  (env : Env) :
  gpio_level (snd (SerialCommunication.send_data self data env))
  = gpio_level env
  /\ gpio_reads (snd (SerialCommunication.send_data self data env))
     = gpio_reads env.
Proof.
  unfold SerialCommunication.send_data.
  destruct (negb (SerialCommunication.connected self)
            || negb (SerialCommunication.truthy
                       (SerialCommunication.connection self)));
    [split; reflexivity|].
  unfold try_except.
  destruct (SerialCommunication.connection self) as [c|];
    [|split; reflexivity].
  destruct (encode_utf8 (data ++ newline)) as [payload|e];
    [|split; reflexivity].
  unfold Serial.write, Serial.flush.
  destruct (Serial.is_open c); [|split; reflexivity].
  unfold bind, lift. rewrite !io_attempt_run.
  destruct (io_error env (io_calls env)); cbn; [split; reflexivity|].
  destruct (io_error env (S (io_calls env))); cbn; split; reflexivity.
Qed.

(** A turn never reads the button. *)
Lemma turn_keeps_gpio (g : Globals) (env : Env) :
  exists env',
    turn g env = (Ok tt, env')
    /\ gpio_level env' = gpio_level env
    /\ gpio_reads env' = gpio_reads env.
Proof.
  unfold turn.
  unfold bind at 1. unfold print at 1, emit at 1. cbv beta iota.
  unfold bind at 1.
  match goal with |- context [SerialCommunication.send_data ?sc ?d ?e] =>
    destruct (send_data_returns sc d e) as (sent1 & env2 & Hrun1);
    destruct (send_data_keeps_gpio sc d e) as (Hl1 & Hr1) end.
  rewrite Hrun1 in *. cbn [snd] in Hl1, Hr1.
  unfold bind at 1. unfold print at 1, emit at 1. cbv beta iota.
  unfold bind at 1. rewrite spin_run.
  unfold bind at 1.
  destruct (0 <? spin_payout _)%Z; unfold bind at 1;
    match goal with |- context [SerialCommunication.send_data ?sc ?d ?e] =>
      destruct (send_data_returns sc d e) as (sent2 & env3 & Hrun2);
      destruct (send_data_keeps_gpio sc d e) as (Hl2 & Hr2) end;
    rewrite Hrun2 in *; cbn [snd] in Hl2, Hr2;
    eexists; (split; [reflexivity|]); cbn;
    rewrite Hl2, Hr2; cbn; rewrite Hl1, Hr1; split; reflexivity.
Qed.

(** One round on a link that is up: the button takes the sample, one more
    sample of the line is used up, and [write] is called twice when the poll
    sees a rising edge and not at all otherwise. *)
Lemma round_counts_writes (g : Globals) (c : Serial.t) (env : Env) :
  SerialCommunication.connected (serial_comm g) = true ->
  SerialCommunication.connection (serial_comm g) = Some c ->
  Serial.is_open c = true ->
  exists env',
    handle_button_presses_round g env
    = (Ok (mkGlobals (video_player g) (serial_comm g)
             (Button.mk (Button.pin (spin_button g)) (sample env 0))), env')
    /\ gpio_level env' = gpio_level env
    /\ gpio_reads env' = S (gpio_reads env)
    /\ List.length (serial_writes (trace env'))
       = List.length (serial_writes (trace env))
         + (if sample env 0 && negb (Button.last_state (spin_button g))
            then 2 else 0).
Proof.
  intros Hconn Hc Hopen. unfold handle_button_presses_round.
  unfold bind at 1. rewrite was_just_pressed_run.
  set (env1 := set_gpio_reads _ _).
  set (g1 := mkGlobals _ _ _).
  destruct (sample env 0 && negb (Button.last_state (spin_button g))).
  - destruct (turn_run g1 c env1 Hconn Hc Hopen)
      as (notice & report & env2 & Hrun & Htr & Hw1 & Hw2 & _).
    destruct (turn_keeps_gpio g1 env1) as (env2' & Hrun' & Hl & Hr).
    rewrite Hrun in Hrun'. injection Hrun' as <-.
    unfold bind at 1. rewrite Hrun. eexists. split; [reflexivity|].
    cbn. rewrite Hl, Hr, Htr. subst env1; cbn.
    rewrite !serial_writes_app, Hw1, Hw2, serial_writes_presentation.
    cbn. rewrite !length_app. cbn. repeat split. lia.
  - eexists. split; [reflexivity|]. cbn.
    rewrite !serial_writes_app, !length_app. cbn. repeat split. lia.
Qed.

Lemma rising_edges_shift (env env' : Env) (prev : bool) (n : nat) :
  gpio_level env' = gpio_level env ->
  gpio_reads env' = S (gpio_reads env) ->
  forall start prev',
    prev' = prev ->
    rising_edges env' prev' start n = rising_edges env prev (S start) n.
Proof.
  intros Hl Hr. revert prev.
  induction n as [|n IH]; intros prev start prev' ->; [reflexivity|].
  cbn [rising_edges].
  assert (Hs : sample env' start = sample env (S start)).
  { unfold sample. rewrite Hl, Hr. f_equal. f_equal. lia. }
  rewrite Hs. f_equal. now apply IH.
Qed.

Lemma rounds_count_writes (rounds : nat) :
  forall (g : Globals) (c : Serial.t) (env : Env),
    SerialCommunication.connected (serial_comm g) = true ->
    SerialCommunication.connection (serial_comm g) = Some c ->
    Serial.is_open c = true ->
    exists g' env',
      handle_button_presses rounds g env = (Ok g', env')
      /\ List.length (serial_writes (trace env'))
         = List.length (serial_writes (trace env))
           + 2 * rising_edges env (Button.last_state (spin_button g)) 0 rounds.
Proof.
  induction rounds as [|rounds IH]; intros g c env Hconn Hc Hopen.
  - exists g, env. split; [reflexivity|]. cbn. lia.
  - cbn [handle_button_presses rising_edges].
    destruct (round_counts_writes g c env Hconn Hc Hopen)
      as (env1 & Hrun & Hl & Hr & Hlen).
    unfold bind. rewrite Hrun.
    destruct (IH (mkGlobals (video_player g) (serial_comm g)
                    (Button.mk (Button.pin (spin_button g)) (sample env 0)))
                c env1 Hconn Hc Hopen) as (g' & env' & Hrest & Hlen').
    exists g', env'. split; [exact Hrest|].
    rewrite Hlen', Hlen. cbn [spin_button Button.last_state].
    rewrite (rising_edges_shift env env1 (sample env 0) rounds Hl Hr 0
               (sample env 0) eq_refl).
    destruct (sample env 0 && negb (Button.last_state (spin_button g))); lia.
Qed.

(** X18.  On a link that is up the polling loop plays one turn per rising
    edge of the button and none otherwise: after any number of rounds the
    number of calls of [write] is twice the number of rising edges among the
    samples polled.  A button held down over many polls is one turn. *)
Theorem turns_match_rising_edges :
  forall (rounds : nat) (g : Globals) (c : Serial.t) (env : Env),
    SerialCommunication.connected (serial_comm g) = true ->
    SerialCommunication.connection (serial_comm g) = Some c ->
    Serial.is_open c = true ->
    exists g' env',
      handle_button_presses rounds g env = (Ok g', env')
      /\ List.length (serial_writes (trace env'))
         = List.length (serial_writes (trace env))
           + 2 * rising_edges env (Button.last_state (spin_button g)) 0 rounds.
Proof. intros rounds g c env. apply rounds_count_writes. Qed.

(** Pressed, pressed, released, pressed, released, released: two rising
    edges, so two turns and four lines. *)
Lemma turns_match_rising_edges_witness :
  exists g' env',
    handle_button_presses 6 demo_globals two_presses_env = (Ok g', env')
    /\ List.length (serial_writes (trace env')) = 4.
Proof.
  destruct (turns_match_rising_edges 6 demo_globals demo_port two_presses_env
              eq_refl eq_refl eq_refl) as (g' & env' & H1 & H2).
  exists g', env'. split; [exact H1 | exact H2].
Defined.

(** X19.  Rounds without a rising edge (the button stays released, or stays
    held after the poll that saw it pressed) only poll and wait: each round
    reads the line once and sleeps 50 ms; no frame is shown, no random value
    is drawn, the port is not used, whether the link is up or not. *)
Theorem rounds_without_edge_only_poll :
  forall (rounds : nat) (g : Globals) (env : Env),
    rising_edges env (Button.last_state (spin_button g)) 0 rounds = 0 ->
    exists g' env',
      handle_button_presses rounds g env = (Ok g', env')
      /\ trace env'
         = trace env
           ++ List.concat
                (repeat [EvGpioInput (Button.pin (spin_button g));
                         EvSleep 0.05] rounds)
      /\ gpio_reads env' = gpio_reads env + rounds
      /\ random_calls env' = random_calls env
      /\ io_calls env' = io_calls env
      /\ wire env' = wire env.
Proof.
  induction rounds as [|rounds IH]; intros g env Hnone.
  - exists g, env. cbn. rewrite app_nil_r, Nat.add_0_r. repeat split.
  - cbn [rising_edges] in Hnone.
    destruct (sample env 0 && negb (Button.last_state (spin_button g)))
      eqn:Hidle; [discriminate|]. cbn [Nat.add] in Hnone.
    cbn [handle_button_presses]. unfold bind at 1.
    unfold handle_button_presses_round.
    unfold bind at 1. rewrite was_just_pressed_run, Hidle.
    cbn [bind ret asyncio_sleep emit].
    set (env1 := set_trace _ (set_gpio_reads _ _)).
    set (g1 := mkGlobals _ _ _).
    destruct (IH g1 env1) as (g' & env' & Hrest & Htr & Hg & Hr & Hio & Hw).
    + subst g1; cbn [spin_button Button.last_state].
      rewrite (rising_edges_shift env env1 (sample env 0) rounds
                 eq_refl eq_refl 0 (sample env 0) eq_refl).
      exact Hnone.
    + exists g', env'. split; [exact Hrest|].
      rewrite Htr, Hg, Hr, Hio, Hw. subst env1 g1; cbn.
      rewrite <- !app_assoc. cbn. repeat split. lia.
Qed.

(** The button stays released: three rounds, three polls, nothing else. *)
Lemma rounds_without_edge_only_poll_witness :
  exists g' env',
    handle_button_presses 3 demo_globals (quiet_env []) = (Ok g', env')
    /\ trace env'
       = [EvGpioInput 20; EvSleep 0.05; EvGpioInput 20; EvSleep 0.05;
          EvGpioInput 20; EvSleep 0.05]
    /\ wire env' = [].
Proof.
  destruct (rounds_without_edge_only_poll 3 demo_globals (quiet_env [])
              eq_refl) as (g' & env' & H1 & H2 & _ & _ & _ & H3).
  exists g', env'. split; [exact H1|]. split; [exact H2 | exact H3].
Defined.

(** X20.  A turn is played whether or not the link is up.  With the link
    down, a rising edge still runs the whole presentation and the cooldown;
    both sends are refused with the not-connected diagnostic and the port is
    not touched; the orchestrator prints its "Sent: ..." lines all the
    same, since it does not look at what [send_data] returns. *)
Theorem turn_with_link_down :
  forall (g : Globals) (env : Env),
    SerialCommunication.connected (serial_comm g) = false
    \/ SerialCommunication.connection (serial_comm g) = None ->
    sample env 0 = true ->
    Button.last_state (spin_button g) = false ->
    exists env',
      handle_button_presses_round g env
      = (Ok (mkGlobals (video_player g) (serial_comm g)
               (Button.mk (Button.pin (spin_button g)) true)), env')
      /\ trace env'
         = trace env
           ++ [EvGpioInput (Button.pin (spin_button g));
               EvPrint "Spin button pressed! Starting spin...";
               EvPrint "No serial connection available";
               EvPrint "Sent: GAMBLE 200"]
           ++ presentation_events (video_player g) (gate_opens env)
           ++ [EvPrint "No serial connection available";
               EvPrint (report_message (spin_payout env));
               EvSleep 1; EvSleep 0.05]
      /\ io_calls env' = io_calls env
      /\ wire env' = wire env
      /\ tx_pending env' = tx_pending env.
Proof.
  intros g env Hdown Hpressed Hlast.
  assert (Hrefuse : forall data env1,
             SerialCommunication.send_data (serial_comm g) data env1
             = (Ok false,
                set_trace
                  (trace env1 ++ [EvPrint "No serial connection available"])
                  env1)).
  { intros data env1. unfold SerialCommunication.send_data.
    destruct Hdown as [H|H]; rewrite H; [reflexivity|].
    now rewrite orb_true_r. }
  unfold handle_button_presses_round.
  unfold bind at 1. rewrite was_just_pressed_run, Hpressed, Hlast.
  cbn [andb negb]. unfold turn. cbn [serial_comm video_player].
  unfold bind at 1. unfold bind at 1.
  unfold print at 1, emit at 1. cbv beta iota.
  unfold bind at 1. rewrite Hrefuse.
  unfold bind at 1. unfold print at 1, emit at 1. cbv beta iota.
  unfold bind at 1. rewrite spin_run.
  set (env4 := set_random_calls _ _).
  assert (Hgate : forall e0 : Env,
             random_value e0 = random_value env ->
             random_calls e0 = random_calls env ->
             gate_opens e0 = gate_opens env /\ spin_payout e0 = spin_payout env).
  { intros e0 Hv Hc. unfold spin_payout, gate_opens. now rewrite Hv, Hc. }
  match goal with |- context [spin_payout ?e0] =>
    destruct (Hgate e0 eq_refl eq_refl) as (Hg & Hp) end.
  subst env4. rewrite Hg, Hp.
  unfold report_message.
  destruct (0 <? spin_payout env)%Z; unfold bind at 1; unfold bind at 1;
    rewrite Hrefuse; eexists; (split; [reflexivity|]); cbn;
    rewrite <- ?app_assoc; cbn; repeat split.
Qed.

Lemma turn_with_link_down_witness :
  exists env',
    handle_button_presses_round demo_globals_link_down losing_env
    = (Ok (mkGlobals demo_player demo_link_down (Button.mk BUTTON_PIN true)),
       env')
    /\ displayed (trace env')
       = [Frame "spin_000.png"; Frame "lose_000.png"]
    /\ wire env' = [].
Proof.
  destruct (turn_with_link_down demo_globals_link_down losing_env
              (or_introl eq_refl) eq_refl eq_refl)
    as (env' & H1 & H2 & _ & H3 & _).
  exists env'. split; [exact H1|]. split; [|exact H3].
  rewrite H2. reflexivity.
Defined.

(** ** The order of the presentation and its outcome *)

(** The presentation in the order the specification lists its steps, in
    full. *)
Lemma spin_as_specified_run (video_player : SlotMachineVideo.t) (env : Env) :
  spin_as_specified video_player env
  = (Ok (spin_payout env),
     set_random_calls
       (if gate_opens env then S (S (random_calls env))
        else S (random_calls env))
       (set_trace
          (trace env
           ++ frame_events (SlotMachineVideo.spin_frames video_player)
                default_frame_delay
           ++ [EvRandom]
           ++ (if gate_opens env then
                 [EvRandom]
                 ++ frame_events (SlotMachineVideo.win_frames video_player)
                      default_frame_delay
               else
                 frame_events (SlotMachineVideo.lose_frames video_player)
                   default_frame_delay))
          env)).
Proof.
  unfold spin_as_specified, SlotMachineVideo.show_spin_animation,
    SlotMachineVideo.show_win_animation, SlotMachineVideo.show_lose_animation.
  unfold bind at 1. rewrite play_animation_run.
  unfold bind at 1. unfold random_random at 1. unfold bind at 1.
  cbn [emit]. unfold spin_payout, gate_opens.
  cbn [random_value random_calls set_trace set_random_calls trace].
  destruct (random_value env (random_calls env) <? 0.2)%float.
  - unfold bind at 1. rewrite get_payout_run.
    unfold bind at 1. rewrite play_animation_run.
    unfold ret. f_equal. destruct env; cbn. now rewrite <- !app_assoc.
  - unfold bind at 1. unfold ret at 1. cbv beta iota.
    unfold bind at 1. rewrite play_animation_run.
    unfold ret. f_equal. destruct env; cbn. now rewrite <- !app_assoc.
Qed.

(** X21.  Drawing the payout after the win animation, as [spin] does, or
    before it, as the specification lists the steps, makes no difference to
    the outcome: the payout returned is the same, the same draws of the random
    source are used, the same frames are shown in the same order, and the two
    traces hold the same events. *)
Theorem spin_order_does_not_change_outcome :
  forall (video_player : SlotMachineVideo.t) (env : Env),
    fst (spin video_player env) = fst (spin_as_specified video_player env)
    /\ random_calls (snd (spin video_player env))
       = random_calls (snd (spin_as_specified video_player env))
    /\ displayed (trace (snd (spin video_player env)))
       = displayed (trace (snd (spin_as_specified video_player env)))
    /\ Permutation (trace (snd (spin video_player env)))
         (trace (snd (spin_as_specified video_player env))).
Proof.
  intros video_player env. rewrite spin_run, spin_as_specified_run.
  cbn [fst snd trace set_trace set_random_calls random_calls].
  unfold presentation_events.
  split; [reflexivity|]. split; [reflexivity|].
  destruct (gate_opens env).
  - split.
    + rewrite !displayed_app, !displayed_frame_events. cbn.
      now rewrite app_nil_r.
    + repeat apply Permutation_app_head. apply Permutation_app_comm.
  - split; reflexivity.
Qed.
